(** * gfcli: command registry, line tokenizer, shell loop and teardown

    A shallow embedding of [src/glfs-cli.c] (the entry point of the
    glusterfs-coreutils utilities and of the interactive shell) and the
    properties of its command dispatch, tokenizing, option parsing and
    context teardown. *)

From Stdlib Require Import ZArith String Ascii List Bool Lia.
From stdpp Require Import strings gmap.
Import ListNotations.

Local Open Scope string_scope.
Local Open Scope list_scope.
Local Open Scope Z_scope.

(** ** C strings and characters *)

(** A C string is modelled by the [string] of its characters before the
    terminating NUL; a character buffer that the code writes into is a
    [list ascii] that holds the terminator explicitly. *)

Definition NUL : ascii := Ascii.zero.
Definition SPACE : ascii := " "%char.
Definition NEWLINE : ascii := ascii_of_nat 10.
Definition TAB : ascii := ascii_of_nat 9.

Definition nl : string := String NEWLINE EmptyString.

(** [isspace] in the C locale: space, and the control characters
    [\t \n \v \f \r] (codes 9 to 13). *)
Definition isspace (c : ascii) : bool :=
  let n := Z.of_nat (nat_of_ascii c) in
  (n =? 32) || ((9 <=? n) && (n <=? 13)).

Definition chars (s : string) : list ascii := list_ascii_of_string s.

(** The bytes of a C string in memory: its characters and the terminator. *)
Definition buffer_of (s : string) : list ascii := chars s ++ [NUL].

(** The C string that starts at the beginning of a buffer: everything up to
    the first NUL. *)
Fixpoint cstring (buf : list ascii) : string :=
  match buf with
  | [] => EmptyString
  | c :: rest => if Ascii.eqb c NUL then EmptyString else String c (cstring rest)
  end.

Definition strlen (s : string) : Z := Z.of_nat (String.length s).

(** [strcmp]: zero exactly for equal strings, else the sign of the first
    differing byte. *)
Definition strcmp (a b : string) : Z :=
  match String.compare a b with
  | Eq => 0
  | Lt => -1
  | Gt => 1
  end.

(** ** The command table *)

(** The functions the table points to.  [shell_usage] is defined in this
    file; the others live in the command modules. *)
Inductive handler : Set :=
| cli_connect | cli_disconnect | do_cat | do_cp | shell_usage | do_ls
| do_mkdir | not_implemented | handle_quit | do_rm | do_stat | do_tail.

(** [struct cmd]; a missing [.alias] initializer is a NULL pointer. *)
Record cmd : Set := mk_cmd {
  alias : option string;
  name : string;
  execute : handler
}.

Definition NUM_CMDS : nat := 12.

Definition cmds : list cmd :=
  [ mk_cmd None "connect" cli_connect;
    mk_cmd None "disconnect" cli_disconnect;
    mk_cmd (Some "gfcat") "cat" do_cat;
    mk_cmd (Some "gfcp") "cp" do_cp;
    mk_cmd None "help" shell_usage;
    mk_cmd (Some "gfls") "ls" do_ls;
    mk_cmd (Some "gfmkdir") "mkdir" do_mkdir;
    mk_cmd (Some "gfmv") "mv" not_implemented;
    mk_cmd None "quit" handle_quit;
    mk_cmd (Some "gfrm") "rm" do_rm;
    mk_cmd (Some "gfstat") "stat" do_stat;
    mk_cmd (Some "gftail") "tail" do_tail ].

(** The test of the [if] in [get_cmd]. *)
Definition cmd_matches (nm : string) (c : cmd) : bool :=
  (strcmp nm (name c) =? 0)
  || match alias c with
     | Some a => strcmp nm a =? 0
     | None => false
     end.

(** The [for] loop of [get_cmd]: [n] iterations are left, [j] is the
    index.  Reading [cmds[j]] outside the table has no defined result;
    [NUM_CMDS] is the table's length, so it does not happen. *)
Fixpoint get_cmd_from (n : nat) (j : nat) (nm : string) : option cmd :=
  match n with
  | O => None
  | S n' =>
      match cmds !! j with
      | Some c => if cmd_matches nm c then Some c else get_cmd_from n' (S j) nm
      | None => None
      end
  end.

Definition get_cmd (nm : string) : option cmd := get_cmd_from NUM_CMDS 0 nm.

(** The text [shell_usage] prints. *)
Definition shell_usage_text : string :=
  "The following commands are supported:" +:+ nl +:+
  "* cat" +:+ nl +:+
  "* connect" +:+ nl +:+
  "* cp" +:+ nl +:+
  "* disconnect" +:+ nl +:+
  "* help" +:+ nl +:+
  "* ls" +:+ nl +:+
  "* mkdir" +:+ nl +:+
  "* quit" +:+ nl +:+
  "* rm" +:+ nl +:+
  "* stat" +:+ nl +:+
  "* tail" +:+ nl.

(** ** trim *)

(** [size_t] is taken to be 64 bits wide. *)
Definition SIZE_BITS : Z := 64.
Definition SIZE_MAX : Z := 2 ^ SIZE_BITS - 1.
Definition size_wrap (z : Z) : Z := z mod 2 ^ SIZE_BITS.

(** Reading and writing [str[i]]: the positions of the string, terminator
    included, are [0 .. strlen str]. *)
Definition load (buf : list ascii) (i : Z) : option ascii :=
  if (0 <=? i) && (i <? Z.of_nat (length buf))
  then buf !! Z.to_nat i
  else None.

Definition store (buf : list ascii) (i : Z) (c : ascii) : list ascii :=
  <[Z.to_nat i := c]> buf.

Inductive trim_result : Set :=
| Trimmed (buf : list ascii)
    (** the loop left through [break] *)
| OutOfBounds (i : Z) (buf : list ascii)
    (** the loop read [str[i]] at an index outside the string *)
| OutOfFuel.

(** The [for] loop of [trim].  [i] is a [size_t]: the test [i >= 0] is
    true of every value it can hold, and [i--] at zero wraps around. *)
Fixpoint trim_loop (fuel : nat) (buf : list ascii) (i : Z) : trim_result :=
  match fuel with
  | O => OutOfFuel
  | S fuel' =>
      if 0 <=? i then
        match load buf i with
        | None => OutOfBounds i buf
        | Some c =>
            if isspace c
            then trim_loop fuel' (store buf i NUL) (size_wrap (i - 1))
            else Trimmed buf
        end
      else Trimmed buf
  end.

Definition trim (str : string) : trim_result :=
  let len := strlen str in
  trim_loop (S (String.length str)) (buffer_of str) (size_wrap (len - 1)).

(** ** strtok_r *)

Definition is_delim (delim : string) (c : ascii) : bool :=
  existsb (Ascii.eqb c) (chars delim).

Fixpoint skip_delims (delim : string) (s : list ascii) : list ascii :=
  match s with
  | [] => []
  | c :: rest => if is_delim delim c then skip_delims delim rest else s
  end.

Fixpoint take_token (delim : string) (s : list ascii) : list ascii :=
  match s with
  | [] => []
  | c :: rest => if is_delim delim c then [] else c :: take_token delim rest
  end.

(** The first call [strtok_r (s, delim, &pos)]: leading delimiters are
    skipped; NULL ([None]) when nothing is left, else the token that runs
    up to the next delimiter. *)
Definition strtok_r (s : string) (delim : string) : option string :=
  match skip_delims delim (chars s) with
  | [] => None
  | t => Some (string_of_list_ascii (take_token delim t))
  end.

(** ** split_str *)

(** [argc] is an [int], taken to be 32 bits wide; an [argc++] at
    [INT_MAX] overflows and has no defined result. *)
Definition INT_MAX : Z := 2 ^ 31 - 1.

Definition int_incr (n : Z) : option Z :=
  if n <? INT_MAX then Some (n + 1) else None.

(** First loop: [argc++] for every space of the line, from [argc] on. *)
Fixpoint count_args (line : list ascii) (argc : Z) : option Z :=
  match line with
  | [] => Some argc
  | c :: rest =>
      if Ascii.eqb c SPACE then
        match int_incr argc with
        | Some argc' => count_args rest argc'
        | None => None
        end
      else count_args rest argc
  end.

(** The inner loop: advance to the next space, newline or terminator.
    Gives the characters passed and where [line] points after
    [*line = '\0'; line++]: [Some rest] inside the string, [None] one past
    its terminator. *)
Fixpoint scan_arg (line : list ascii) : list ascii * option (list ascii) :=
  match line with
  | [] => ([], None)
  | c :: rest =>
      if Ascii.eqb c SPACE || Ascii.eqb c NEWLINE then ([], Some rest)
      else let '(tok, after) := scan_arg rest in (c :: tok, after)
  end.

(** The second loop, [slots = argc - cur_arg].  [None] stands for a read of
    [*line] past the terminator. *)
Fixpoint fill_args (slots : nat) (line : option (list ascii))
  : option (list string) :=
  match slots with
  | O => Some []
  | S slots' =>
      match line with
      | None => None
      | Some [] => Some []
      | Some l =>
          let '(tok, after) := scan_arg l in
          match fill_args slots' after with
          | Some toks => Some (string_of_list_ascii tok :: toks)
          | None => None
          end
      end
  end.

(** What [*argv] is after the call: NULL when [malloc] failed, else an
    array of [argc] slots of which the first [length filled] are set (the
    others are left as [malloc] returned them). *)
Inductive argv_array : Set :=
| ArgvNull
| Argv (filled : list string).

(** [None]: the call has no defined result, by an overflow of [argc] or a
    read past the terminator. *)
Definition split_str (line : string) (malloc_ok : bool)
  : option (Z * argv_array) :=
  match count_args (chars line) 0 with
  | None => None
  | Some n =>
      match int_incr n with
      | None => None
      | Some argc =>
          if malloc_ok then
            match fill_args (Z.to_nat argc) (Some (chars line)) with
            | Some toks => Some (argc, Argv toks)
            | None => None
            end
          else Some (argc, ArgvNull)
      end
  end.

(** Which of the two it is. *)
Definition split_str_fault (line : string) : bool :=
  match count_args (chars line) 0 with
  | None => true
  | Some n =>
      match int_incr n with
      | None => true
      | Some _ => false
      end
  end.

(** ** Process state *)

Definition addr := positive.

(** The state of a heap block that [malloc] (or a library constructor)
    once returned. *)
Inductive block : Set := Live | Freed.

(** Modelled from the spec: the declaration of the translator option (in
    glfs-util.h) is not part of this file; the spec gives it as a key/value
    pair parsed from [namespace.key=value]. *)
Record xlator_option : Set := { xo_key : string; xo_value : string }.

(** [struct cli_context], by the fields this file uses.  A pointer field
    is [None] when NULL. *)
Record cli_context : Set := mk_ctx {
  argc : Z;
  argv : argv_array;
  conn_str : option string;
  fs : option addr;
  options : option addr;
  url : option addr;
  in_shell : bool
}.

(** What [ctx->options] points to. *)
Record cli_options : Set := mk_options {
  debug : bool;
  xlator_options : list xlator_option
}.

Inductive out_event : Set :=
| Stdout (s : string)
| Stderr (s : string).

(** The heap records the blocks the context owns: the context itself, its
    options, the parsed URL and the connection handle.  The line buffers
    of the shell loop are local to it and are not tracked. *)
Record state : Type := mk_state {
  heap : gmap addr block;
  brk : addr;                          (** next address [malloc] hands out *)
  ctx : option addr;                   (** the global [ctx] *)
  ctx_mem : cli_context;               (** the fields of [*ctx] *)
  options_mem : cli_options;           (** the fields of [*ctx->options] *)
  program_invocation_name : string;
  output : list out_event              (** what was printed, oldest first *)
}.

Inductive fault : Set :=
| UseAfterFree        (** access to a block that was released *)
| DoubleFree          (** release of a block that is not live *)
| NullDeref           (** access through a NULL pointer *)
| OutOfBoundsRead     (** read outside a string *)
| Uninitialised       (** read of a slot that was never written *)
| SignedOverflow      (** an [int] incremented past [INT_MAX] *)
| Stuck.              (** a loop model ran out of fuel *)

(** A run either goes on with a value, ends the process through [exit],
    or has no defined behaviour. *)
Inductive outcome (A : Type) : Type :=
| Ok (a : A) (st : state)
| Exit (status : Z) (st : state)
| Undefined (f : fault).

Arguments Ok {A} a st.
Arguments Exit {A} status st.
Arguments Undefined {A} f.

Definition prog (A : Type) : Type := state -> outcome A.

Definition ret {A} (a : A) : prog A := fun st => Ok a st.

Definition bind {A B} (m : prog A) (k : A -> prog B) : prog B :=
  fun st =>
    match m st with
    | Ok a st' => k a st'
    | Exit status st' => Exit status st'
    | Undefined f => Undefined f
    end.

Notation "'let*' x ':=' m 'in' k" := (bind m (fun x => k))
  (at level 10, x pattern, m at level 100, k at level 200).

Definition undefined {A} (f : fault) : prog A := fun _ => Undefined f.

Definition exit {A} (status : Z) : prog A := fun st => Exit status st.

Definition EXIT_SUCCESS : Z := 0.
Definition EXIT_FAILURE : Z := 1.
Definition SIGINT : Z := 2.

Definition print (e : out_event) : prog unit :=
  fun st =>
    Ok tt (mk_state (heap st) (brk st) (ctx st) (ctx_mem st) (options_mem st)
             (program_invocation_name st) (output st ++ [e])).

(** [error (status, errnum, msg)]: a message on stderr, then [exit] when
    [status] is not zero.  The event holds the message that the format and
    its arguments give; the program name before it and the text of
    [errnum] after it, which [error] adds, are left out. *)
Definition error (status : Z) (msg : string) : prog unit :=
  let* _ := print (Stderr msg) in
  if status =? 0 then ret tt else exit status.

Definition set_program_invocation_name (s : string) : prog unit :=
  fun st =>
    Ok tt (mk_state (heap st) (brk st) (ctx st) (ctx_mem st) (options_mem st)
             s (output st)).

(** An access through pointer [p] to the block it names. *)
Definition check_live (p : option addr) : prog unit :=
  fun st =>
    match p with
    | None => Undefined NullDeref
    | Some a =>
        match heap st !! a with
        | Some Live => Ok tt st
        | _ => Undefined UseAfterFree
        end
    end.

(** [malloc]: NULL when the allocation fails. *)
Definition malloc (succeeds : bool) : prog (option addr) :=
  fun st =>
    if succeeds
    then Ok (Some (brk st))
           (mk_state (<[brk st := Live]> (heap st)) (Pos.succ (brk st))
              (ctx st) (ctx_mem st) (options_mem st)
              (program_invocation_name st) (output st))
    else Ok None st.

(** [free (p)]: nothing for NULL; the block must be live. *)
Definition free (p : option addr) : prog unit :=
  fun st =>
    match p with
    | None => Ok tt st
    | Some a =>
        match heap st !! a with
        | Some Live =>
            Ok tt (mk_state (<[a := Freed]> (heap st)) (brk st) (ctx st)
                     (ctx_mem st) (options_mem st)
                     (program_invocation_name st) (output st))
        | _ => Undefined DoubleFree
        end
    end.

Definition set_global_ctx (p : option addr) : prog unit :=
  fun st =>
    Ok tt (mk_state (heap st) (brk st) p (ctx_mem st) (options_mem st)
             (program_invocation_name st) (output st)).

(** Reading a field of [*ctx]. *)
Definition get_ctx : prog cli_context :=
  fun st =>
    match check_live (ctx st) st with
    | Ok _ _ => Ok (ctx_mem st) st
    | Exit status st' => Exit status st'
    | Undefined f => Undefined f
    end.

(** Writing fields of [*ctx]. *)
Definition set_ctx (f : cli_context -> cli_context) : prog unit :=
  let* c := get_ctx in
  fun st =>
    Ok tt (mk_state (heap st) (brk st) (ctx st) (f c) (options_mem st)
             (program_invocation_name st) (output st)).

(** Reading [*ctx->options]. *)
Definition get_options : prog cli_options :=
  let* c := get_ctx in
  let* _ := check_live (options c) in
  fun st => Ok (options_mem st) st.

Definition set_options (f : cli_options -> cli_options) : prog unit :=
  let* o := get_options in
  fun st =>
    Ok tt (mk_state (heap st) (brk st) (ctx st) (ctx_mem st) (f o)
             (program_invocation_name st) (output st)).

(** ** Routines of the other modules *)

(** The command handlers, the translator-option helpers of glfs-util and
    the constants of config.h are not in this file; they are parameters of
    the model.  A handler runs on the whole state and may return a status,
    leave the process, or fail. *)
Record externals : Type := {
  run_handler : handler -> prog Z;
  parse_xlator_option : string -> option xlator_option;
  append_xlator_option :
    list xlator_option -> xlator_option -> option (list xlator_option);
  apply_xlator_options : prog Z;
  print_xlator_options : prog unit;
  PACKAGE_NAME : string;
  PACKAGE_VERSION : string;
  COPYRIGHT : string;
  LICENSE : string
}.

(** Modelled from the spec: [gluster_url_free], [free_xlator_options] and
    [glfs_fini] are defined outside this file; by the spec, teardown
    releases the connection, frees the backend-option memory and frees the
    URL.  Each is taken to release the block its argument names; the nodes
    of the option list are not tracked, [free_xlator_options] only reads
    the list head inside [*ctx->options]. *)
Definition gluster_url_free (u : option addr) : prog unit := free u.

Definition free_xlator_options : prog unit :=
  let* _ := get_options in ret tt.

Definition glfs_fini (f : option addr) : prog unit := free f.

(** ** cleanup and sig_handler *)

Definition cleanup : prog unit :=
  let* c := get_ctx in
  let* _ :=
    match url c with
    | Some u => gluster_url_free (Some u)
    | None => ret tt
    end in
  let* c := get_ctx in
  let* _ :=
    match options c with
    | Some o =>
        let* _ := free_xlator_options in
        let* c' := get_ctx in
        free (options c')
    | None => ret tt
    end in
  let* c := get_ctx in
  let* _ :=
    match fs c with
    | Some f => glfs_fini (Some f)
    | None => ret tt
    end in
  fun st => free (ctx st) st.

Definition sig_handler (sig : Z) : prog unit :=
  if sig =? SIGINT then
    let* _ := cleanup in
    exit EXIT_SUCCESS
  else ret tt.

(** ** The shell loop *)

(** One [getline] result: the line as read (with its newline when the
    input had one), and whether the two allocations made for the line, the
    [strdup] of the loop and the [malloc] of [split_str], succeed. *)
Record input_line : Set := mk_line {
  text : string;
  strdup_ok : bool;
  malloc_ok : bool
}.

Definition typed (s : string) : input_line := mk_line s true true.

Definition prompt_text (conn : option string) : string :=
  match conn with
  | Some s => "gfcli " +:+ s +:+ "> "
  | None => "gfcli> "
  end.

Definition unknown_command_text (token : string) : string :=
  "Unknown command '" +:+ token +:+ "'. Type 'help' for more." +:+ nl.

(** [*line == '\n'] *)
Definition starts_with_newline (line : string) : bool :=
  match line with
  | String c _ => Ascii.eqb c NEWLINE
  | EmptyString => false
  end.

Section Shell.

Variable ext : externals.

(** [cmd->execute (ctx)] *)
Definition call (h : handler) : prog Z :=
  match h with
  | shell_usage =>
      let* _ := print (Stdout shell_usage_text) in
      ret 0
  | _ => run_handler ext h
  end.

(** The body of the loop from the dispatch on: [cmd] was found for the
    line. *)
Definition dispatch (c : cmd) (l : input_line) : prog (option Z) :=
  match split_str (text l) (malloc_ok l) with
  | None =>
      undefined (if split_str_fault (text l) then SignedOverflow
                 else OutOfBoundsRead)
  | Some (n, av) =>
      let* _ := set_ctx (fun x => mk_ctx n av (conn_str x) (fs x)
                                    (options x) (url x) (in_shell x)) in
      if n =? 0 then ret (Some 0)
      else
        match av with
        | ArgvNull => undefined NullDeref
        | Argv [] => undefined Uninitialised
        | Argv (arg0 :: _) =>
            let* _ := set_program_invocation_name arg0 in
            let* _ := call (execute c) in
            let* _ := set_ctx (fun x => mk_ctx (argc x) ArgvNull (conn_str x)
                                          (fs x) (options x) (url x)
                                          (in_shell x)) in
            ret None
        end
  end.

(** The body of the loop after a line was read.  [Some r]: the loop is
    left ([goto out]) with [ret = r]; [None]: next iteration. *)
Definition shell_line (l : input_line) : prog (option Z) :=
  if starts_with_newline (text l) then ret None
  else if negb (strdup_ok l) then
    let* _ := error 0 "strdup" in
    ret (Some 0)
  else
    match strtok_r (text l) " " with
    | None => undefined NullDeref
    | Some token =>
        match trim token with
        | Trimmed buf =>
            let token := cstring buf in
            match get_cmd token with
            | Some c => dispatch c l
            | None =>
                let* _ := print (Stderr (unknown_command_text token)) in
                ret None
            end
        | OutOfBounds _ _ => undefined OutOfBoundsRead
        | OutOfFuel => undefined Stuck
        end
    end.

(** [start_shell] on the lines that [getline] will deliver; after the last
    one [getline] gives -1.  Returns [ret] and the lines not yet read. *)
Fixpoint start_shell (input : list input_line)
  : prog (Z * list input_line) :=
  let* c := get_ctx in
  let* _ := print (Stdout (prompt_text (conn_str c))) in
  match input with
  | [] => ret (-1, [])
  | l :: rest =>
      let* r := shell_line l in
      match r with
      | Some status => ret (status, rest)
      | None => start_shell rest
      end
  end.

End Shell.

(** ** getopt_long *)

(** [struct option] with a NULL [flag]. *)
Record long_option : Set := mk_long {
  lo_name : string;
  lo_has_arg : bool;
  lo_val : ascii
}.

Definition long_options : list long_option :=
  [ mk_long "debug" false "d";
    mk_long "help" false "x";
    mk_long "version" false "v";
    mk_long "xlator-option" true "o" ].

Definition optstring : string := "o:".

(** What the library finds wrong with an element; each has its own
    message. *)
Inductive getopt_error : Set :=
| UnrecognizedLong (text : string)
    (** no long option has the name, not even abbreviated; [text] is the
        element after its two dashes, with the [=value] part *)
| AmbiguousLong (text : string) (names : list string)
    (** the name abbreviates the options [names] *)
| UnexpectedArgument (name : string)
    (** [--name=value] for an option without argument *)
| MissingArgumentLong (name : string)
    (** [--name] as last element for an option with argument *)
| InvalidShort (c : ascii)
| MissingArgumentShort (c : ascii).

Inductive getopt_result : Set :=
| GetoptEnd
    (** -1: no option is left *)
| GetoptOption (val : ascii) (optarg : option string) (longindex : option nat)
    (** an option; [longindex] is what a long option stores through the
        last parameter, a short option stores nothing *)
| GetoptError (e : getopt_error).
    (** '?': unknown or ambiguous option, missing or unexpected argument *)

(** The line that the library writes to stderr before it returns '?'
    ([opterr] is never cleared and the option string does not start with a
    colon).  The messages are those of the C locale, the program does not
    call [setlocale].  [argv0] is [argv[0]]. *)
Definition getopt_message (argv0 : string) (e : getopt_error) : string :=
  argv0 +:+ ": " +:+
  match e with
  | UnrecognizedLong text =>
      "unrecognized option '--" +:+ text +:+ "'" +:+ nl
  | AmbiguousLong text names =>
      "option '--" +:+ text +:+ "' is ambiguous; possibilities:" +:+
      fold_right (fun n acc => " '--" +:+ n +:+ "'" +:+ acc) nl names
  | UnexpectedArgument name =>
      "option '--" +:+ name +:+ "' doesn't allow an argument" +:+ nl
  | MissingArgumentLong name =>
      "option '--" +:+ name +:+ "' requires an argument" +:+ nl
  | InvalidShort c =>
      "invalid option -- '" +:+ String c EmptyString +:+ "'" +:+ nl
  | MissingArgumentShort c =>
      "option requires an argument -- '" +:+ String c EmptyString +:+ "'"
      +:+ nl
  end.

(** An element that is no option: it does not start with a dash, or is a
    lone dash. *)
Definition is_nonoption (a : string) : bool :=
  match a with
  | String c (String _ _) => negb (Ascii.eqb c "-")
  | _ => true
  end.

(** Does the short option [c] exist in [spec], and does it take an
    argument? *)
Fixpoint short_lookup (c : ascii) (spec : list ascii) : option bool :=
  match spec with
  | [] => None
  | x :: rest =>
      if Ascii.eqb x c then
        Some match rest with
             | y :: _ => Ascii.eqb y ":"
             | [] => false
             end
      else short_lookup c rest
  end.

(** The name of a long option and its [=value] part. *)
Fixpoint split_eq (s : string) : string * option string :=
  match s with
  | EmptyString => (EmptyString, None)
  | String c rest =>
      if Ascii.eqb c "="%char then (EmptyString, Some rest)
      else let '(n, v) := split_eq rest in (String c n, v)
  end.

Fixpoint indexed {A} (i : nat) (l : list A) : list (nat * A) :=
  match l with
  | [] => []
  | x :: rest => (i, x) :: indexed (S i) rest
  end.

Inductive long_match : Set :=
| LongFound (i : nat) (o : long_option)
| LongAmbiguous (names : list string)
| LongUnknown.

(** An exact name wins; otherwise the name may be an abbreviation of
    exactly one option.  (Two options that an abbreviation fits count as
    one when they agree in [has_arg], [flag] and [val]; no two of this
    table do.) *)
Definition long_lookup (nm : string) : long_match :=
  let table := indexed 0 long_options in
  match List.find (fun e => String.eqb (lo_name (snd e)) nm) table with
  | Some e => LongFound (fst e) (snd e)
  | None =>
      match List.filter (fun e => String.prefix nm (lo_name (snd e))) table with
      | [] => LongUnknown
      | [e] => LongFound (fst e) (snd e)
      | es => LongAmbiguous (map (fun e => lo_name (snd e)) es)
      end
  end.

(** One call of [getopt_long]: the elements that are no options and were
    passed over before the element looked at, the result, the elements
    that the result used up ([optind] has moved past them) and the
    elements not yet scanned. *)
Record getopt_call : Set := mk_call {
  go_passed : list string;
  go_result : getopt_result;
  go_used : list string;
  go_left : list string
}.

(** The elements at the front that are no options, and the others. *)
Fixpoint skip_nonoptions (args : list string) : list string * list string :=
  match args with
  | [] => ([], [])
  | a :: rest =>
      if is_nonoption a then
        let '(passed, others) := skip_nonoptions rest in (a :: passed, others)
      else ([], args)
  end.

(** The element [a], which starts with a dash and has a second character,
    followed by [rest].  A double dash ends the scan.  The only short
    option, [o], takes the rest of its element or the next element as its
    argument, so the library is never called again with a group of short
    options partly read, except after an error, when [parse_options] does
    not call again; such a group is given as the element without the
    characters read. *)
Definition scan_element (a : string) (rest : list string)
    : getopt_result * list string * list string :=
  match a with
  | String _ (String c more) =>
      if Ascii.eqb c "-" then
        match more with
        | EmptyString => (GetoptEnd, [a], rest)
        | _ =>
            let '(nm, value) := split_eq more in
            match long_lookup nm with
            | LongUnknown => (GetoptError (UnrecognizedLong more), [a], rest)
            | LongAmbiguous names =>
                (GetoptError (AmbiguousLong more names), [a], rest)
            | LongFound i o =>
                match value with
                | Some v =>
                    if lo_has_arg o
                    then (GetoptOption (lo_val o) (Some v) (Some i), [a], rest)
                    else (GetoptError (UnexpectedArgument (lo_name o)),
                          [a], rest)
                | None =>
                    if lo_has_arg o then
                      match rest with
                      | v :: rest' =>
                          (GetoptOption (lo_val o) (Some v) (Some i),
                           [a; v], rest')
                      | [] =>
                          (GetoptError (MissingArgumentLong (lo_name o)),
                           [a], [])
                      end
                    else (GetoptOption (lo_val o) None (Some i), [a], rest)
                end
            end
        end
      else
        let '(used, pending) :=
          match more with
          | EmptyString => ([a], rest)
          | _ => ([], String "-" more :: rest)
          end in
        if Ascii.eqb c ":" || Ascii.eqb c ";" then
          (GetoptError (InvalidShort c), used, pending)
        else
          match short_lookup c (chars optstring) with
          | None => (GetoptError (InvalidShort c), used, pending)
          | Some false => (GetoptOption c None None, used, pending)
          | Some true =>
              match more, rest with
              | String _ _, _ => (GetoptOption c (Some more) None, [a], rest)
              | EmptyString, v :: rest' =>
                  (GetoptOption c (Some v) None, [a; v], rest')
              | EmptyString, [] =>
                  (GetoptError (MissingArgumentShort c), [a], [])
              end
          end
  | _ => (GetoptEnd, [], a :: rest)
  end.

(** One call of [getopt_long (argc, argv, "o:", long_options,
    &option_index)], on the elements of [argv] not yet scanned, with
    [POSIXLY_CORRECT] not set in the environment: elements that are no
    options are passed over (the library moves them behind the options,
    see [exchange]). *)
Definition getopt_long (args : list string) : getopt_call :=
  let '(passed, others) := skip_nonoptions args in
  match others with
  | [] => mk_call passed GetoptEnd [] []
  | a :: rest =>
      let '(r, used, pending) := scan_element a rest in
      mk_call passed r used pending
  end.

(** ** parse_options and main *)

Definition AUTHORS : string := "Written by Craig Cabrey.".

Definition usage_text (prog_name : string) : string :=
  "Usage: " +:+ prog_name +:+ " [OPTION]... [URL]" +:+ nl +:+
  "Start a Gluster shell to execute commands on a remote Gluster volume." +:+ nl +:+ nl +:+
  "  -o, --xlator-option=OPTION   specify a translator option for the" +:+ nl +:+
  "                               connection. Multiple options are supported" +:+ nl +:+
  "                               and take the form xlator.key=value." +:+ nl +:+
  "  -p, --port=PORT              specify a port on which to connect" +:+ nl +:+
  "      --help     display this help and exit" +:+ nl +:+
  "      --version  output version information and exit" +:+ nl +:+ nl +:+
  "Examples:" +:+ nl +:+
  "  gfcli glfs://localhost/groot" +:+ nl +:+
  "        Start a shell with a connection to localhost opened." +:+ nl +:+
  "  gfcli -o *replicate*.data-self-heal=on glfs://localhost/groot" +:+ nl +:+
  "        Start a shell with a connection localhost open, with the" +:+ nl +:+
  "        translator option data-self-head set to on." +:+ nl.

Definition usage {A} : prog A :=
  let* _ := (fun st => print (Stdout (usage_text (program_invocation_name st))) st) in
  exit EXIT_SUCCESS.

(** The part of a path after its last slash. *)
Fixpoint basename_from (path : list ascii) (acc : list ascii) : list ascii :=
  match path with
  | [] => acc
  | c :: rest =>
      if Ascii.eqb c "/"%char then basename_from rest []
      else basename_from rest (acc ++ [c])
  end.

Fixpoint skip_slashes (l : list ascii) : list ascii :=
  match l with
  | [] => []
  | c :: rest => if Ascii.eqb c "/"%char then skip_slashes rest else l
  end.

(** A path without the slashes at its end. *)
Definition strip_slashes (path : list ascii) : list ascii :=
  rev (skip_slashes (rev path)).

(** [basename] as <libgen.h> declares it: "." for the empty path (and for
    the NULL pointer), "/" for a path of slashes only, and otherwise the
    last component of the path, the slashes after it left out. *)
Definition basename (path : string) : string :=
  match chars path with
  | [] => "."
  | _ :: _ =>
      match strip_slashes (chars path) with
      | [] => "/"
      | l => string_of_list_ascii (basename_from l [])
      end
  end.

(** What that [basename] leaves in its argument: the slashes after the
    last component are cut off, by a terminator written over the first of
    them. *)
Definition basename_buffer (path : string) : string :=
  match strip_slashes (chars path) with
  | [] => path
  | l => string_of_list_ascii l
  end.

(** The argument vector after [basename (argv[0])]. *)
Definition after_basename (args : list string) : list string :=
  match args with
  | [] => []
  | a0 :: rest => basename_buffer a0 :: rest
  end.

(** The library's [exchange], called when elements that are no options
    were passed over ([held]) and the elements after them have been used
    up as options ([recent]): it writes the options before the held
    elements in [argv], in place.  [scanned] are the elements before both,
    [pending] the ones after. *)
Definition exchange (argv0 : string) (scanned held recent pending : list string)
    : prog unit :=
  match recent, held with
  | _ :: _, _ :: _ =>
      set_ctx (fun x => mk_ctx (argc x)
                          (Argv (argv0 :: scanned ++ recent ++ held ++ pending))
                          (conn_str x) (fs x) (options x) (url x) (in_shell x))
  | _, _ => ret tt
  end.

Section Main.

Variable ext : externals.

(** [error (EXIT_FAILURE, ...)] *)
Definition fatal {A} (msg : string) : prog A :=
  let* _ := print (Stderr msg) in
  exit EXIT_FAILURE.

Definition version_text (prog_name : string) : string :=
  prog_name +:+ " (" +:+ PACKAGE_NAME ext +:+ ") " +:+ PACKAGE_VERSION ext +:+ nl +:+
  COPYRIGHT ext +:+ nl +:+ LICENSE ext +:+ nl +:+ AUTHORS +:+ nl.

(** The [case 'o'] of the switch. *)
Definition add_xlator_option (optarg : option string) : prog unit :=
  match optarg with
  | None => undefined NullDeref
  | Some a =>
      let* option :=
        match parse_xlator_option ext a with
        | Some o => ret o
        | None => fatal a
        end in
      let* opts := get_options in
      match append_xlator_option ext (xlator_options opts) option with
      | Some l => set_options (fun o => mk_options (debug o) l)
      | None => fatal "append_xlator_option"
      end
  end.

(** The [while] loop of [parse_options].  Of the elements of [argv] after
    [argv0], [pending] are those that [getopt_long] has not scanned yet,
    [recent] those that its last call used up, [held] the elements that
    are no options and were passed over, [scanned] the ones before them.
    Gives the final [option_index]. *)
Fixpoint parse_options_loop (fuel : nat) (argv0 : string)
    (scanned held recent pending : list string) (option_index : Z)
    : prog Z :=
  match fuel with
  | O => undefined Stuck
  | S fuel' =>
      let* _ := exchange argv0 scanned held recent pending in
      let scanned := scanned ++ recent in
      let found := getopt_long pending in
      let held := held ++ go_passed found in
      match go_result found with
      | GetoptEnd =>
          let* _ := exchange argv0 scanned held (go_used found)
                      (go_left found) in
          ret option_index
      | GetoptError e =>
          let* _ := print (Stderr (getopt_message argv0 e)) in
          fatal "Try --help for more information."
      | GetoptOption opt optarg longindex =>
          let option_index :=
            match longindex with
            | Some i => Z.of_nat i
            | None => option_index
            end in
          let* _ :=
            if Ascii.eqb opt "d" then
              set_options (fun o => mk_options true (xlator_options o))
            else if Ascii.eqb opt "o" then add_xlator_option optarg
            else if Ascii.eqb opt "h" then usage
            else if Ascii.eqb opt "v" then
              let* _ := (fun st => print (Stdout (version_text
                                       (program_invocation_name st))) st) in
              exit EXIT_SUCCESS
            else if Ascii.eqb opt "x" then usage
            else fatal "Try --help for more information." in
          parse_options_loop fuel' argv0 scanned held (go_used found)
            (go_left found) option_index
      end
  end.

Definition parse_options : prog unit :=
  let* c := get_ctx in
  match argv c with
  | ArgvNull => undefined NullDeref
  | Argv av =>
      let* option_index :=
        parse_options_loop (S (length av)) (hd EmptyString av) [] [] []
          (tail av) 0 in
      if argc c - option_index >=? 2 then
        let* r := call ext cli_connect in
        if r =? -1 then exit EXIT_FAILURE
        else
          let* r := apply_xlator_options ext in
          if r =? -1 then exit EXIT_FAILURE else ret tt
      else ret tt
  end.

(** [main], given the argument vector, whether its two allocations
    succeed, and the lines on standard input.  [Ok r] is the return of
    [main] with status [r]. *)
Definition main (args : list string) (ctx_ok options_ok : bool)
    (stdin : list input_line) : prog Z :=
  let finish (r : Z) : prog Z :=
    let* _ := cleanup in
    ret (if r =? -1 then EXIT_FAILURE else r) in
  let nm := basename (hd "" args) in
  let* _ := set_program_invocation_name nm in
  let* p := malloc ctx_ok in
  let* _ := set_global_ctx p in
  let* _ :=
    match p with
    | None => fatal "failed to initialize context"
    | Some _ => ret tt
    end in
  let* q := malloc options_ok in
  let* _ := set_ctx (fun _ => mk_ctx (Z.of_nat (length args))
                               (Argv (after_basename args))
                               None None q None false) in
  let* _ :=
    match q with
    | None => fatal "failed to initialize options"
    | Some _ => ret tt
    end in
  let* _ := set_options (fun _ => mk_options false []) in
  (* program_invocation_name still holds [nm] *)
  match get_cmd nm with
  | Some c =>
      let* _ := set_ctx (fun x => mk_ctx (argc x) (argv x) (conn_str x)
                                    (fs x) (options x) (url x) false) in
      let* r := call ext (execute c) in
      finish r
  | None =>
      let* _ := set_ctx (fun x => mk_ctx (argc x) (argv x) (conn_str x)
                                    (fs x) (options x) (url x) true) in
      let* _ := parse_options in
      let* _ := set_ctx (fun x => mk_ctx 0 ArgvNull (conn_str x)
                                    (fs x) (options x) (url x) (in_shell x)) in
      let* (_, rest) := start_shell ext stdin in
      let* o := get_options in
      let* _ := if debug o then print_xlator_options ext else ret tt in
      let* (r, _) := start_shell ext rest in
      finish r
  end.

End Main.

Definition initial_state : state :=
  mk_state ∅ 1%positive None
    (mk_ctx 0 ArgvNull None None None None false)
    (mk_options false []) "" [].

(** Handlers and helpers that do nothing and report success, for runs in
    which the outcome does not depend on them. *)
(** ** Concrete runs *)

Definition handler_label (h : handler) : string :=
  match h with
  | cli_connect => "cli_connect"
  | cli_disconnect => "cli_disconnect"
  | do_cat => "do_cat"
  | do_cp => "do_cp"
  | shell_usage => "shell_usage"
  | do_ls => "do_ls"
  | do_mkdir => "do_mkdir"
  | not_implemented => "not_implemented"
  | handle_quit => "handle_quit"
  | do_rm => "do_rm"
  | do_stat => "do_stat"
  | do_tail => "do_tail"
  end.

(** Stand-ins for the routines of the other modules that only log their
    call on stdout; all report success but the not-implemented stub, which
    reports failure.  An option text is split at its first [=]. *)
Definition logging_externals : externals :=
  {| run_handler := fun h =>
       let* _ := print (Stdout (handler_label h)) in
       ret match h with
           | not_implemented => -1
           | _ => 0
           end;
     parse_xlator_option := fun s =>
       let '(k, v) := split_eq s in
       match v with
       | Some v => Some {| xo_key := k; xo_value := v |}
       | None => None
       end;
     append_xlator_option := fun l o => Some (l ++ [o]);
     apply_xlator_options :=
       let* _ := print (Stdout "apply_xlator_options") in ret 0;
     print_xlator_options := ret tt;
     PACKAGE_NAME := "glusterfs-coreutils";
     PACKAGE_VERSION := "0.0.1";
     COPYRIGHT := "Copyright (C) 2015 Facebook Inc.";
     LICENSE := "" |}.

(** The state in which [main], started as [gfcli] without arguments,
    enters the shell loop: context at block 1, options at block 2. *)
Definition ready_state : state :=
  mk_state (<[2%positive := Live]> (<[1%positive := Live]> ∅)) 3%positive
    (Some 1%positive)
    (mk_ctx 0 ArgvNull None None (Some 2%positive) None true)
    (mk_options false []) "gfcli" [].

(** The state in which [main], started in shell mode with the argument
    vector [args], calls [parse_options]. *)
Definition startup_state (args : list string) : state :=
  mk_state (<[2%positive := Live]> (<[1%positive := Live]> ∅)) 3%positive
    (Some 1%positive)
    (mk_ctx (Z.of_nat (length args)) (Argv (after_basename args)) None None
       (Some 2%positive) None true)
    (mk_options false []) (basename (hd "" args)) [].

(** A state with an open connection: URL at block 3, connection handle
    at block 4. *)
Definition connected_state : state :=
  mk_state
    (<[4%positive := Live]> (<[3%positive := Live]>
      (<[2%positive := Live]> (<[1%positive := Live]> ∅))))
    5%positive (Some 1%positive)
    (mk_ctx 0 ArgvNull (Some "glfs://localhost/groot") (Some 4%positive)
       (Some 2%positive) (Some 3%positive) true)
    (mk_options false []) "gfcli" [].

(** ** Notions the properties are stated with *)

(** The number of spaces of a line, as a number: what the [int] count of
    [split_str] holds before its last increment unless it overflows (see
    [count_args]). *)
Fixpoint count_spaces (line : list ascii) : Z :=
  match line with
  | [] => 0
  | c :: rest => (if Ascii.eqb c SPACE then 1 else 0) + count_spaces rest
  end.

(** Lookup as the registry contract words it: the first entry, in table
    order, whose name or alias is the given string. *)
Definition registry_lookup (nm : string) : option cmd :=
  List.find
    (fun c => String.eqb nm (name c)
              || match alias c with
                 | Some a => String.eqb nm a
                 | None => false
                 end)
    cmds.

(** The lines of a text, without their newlines. *)
Fixpoint lines_from (s : list ascii) (cur : list ascii) : list string :=
  match s with
  | [] =>
      match cur with
      | [] => []
      | _ => [string_of_list_ascii cur]
      end
  | c :: rest =>
      if Ascii.eqb c NEWLINE
      then string_of_list_ascii cur :: lines_from rest []
      else lines_from rest (cur ++ [c])
  end.

(** Is command [nm] an item of the list that [help] prints? *)
Definition help_lists (nm : string) : bool :=
  existsb (String.eqb ("* " +:+ nm)) (lines_from (chars shell_usage_text) []).

(** The fields of a text between its spaces: one more than it has
    spaces, empty between two adjacent spaces. *)
Fixpoint space_fields (l : list ascii) : list (list ascii) :=
  match l with
  | [] => [[]]
  | c :: rest =>
      if Ascii.eqb c SPACE then [] :: space_fields rest
      else
        match space_fields rest with
        | f :: fs => (c :: f) :: fs
        | [] => [[c]]
        end
  end.

(** A run of [k] spaces. *)
Definition spaces (k : nat) : string := string_of_list_ascii (repeat SPACE k).

(** [*ctx] can be accessed. *)
Definition ctx_live (st : state) : Prop :=
  exists p, ctx st = Some p /\ heap st !! p = Some Live.

(** The blocks [cleanup] releases, in its order. *)
Definition owned_blocks (st : state) : list addr :=
  option_list (url (ctx_mem st)) ++ option_list (options (ctx_mem st))
  ++ option_list (fs (ctx_mem st)) ++ option_list (ctx st).

(** The state with every owned block released and nothing else changed. *)
Definition released (st : state) : state :=
  mk_state
    (foldl (fun h b => <[b := Freed]> h) (heap st) (owned_blocks st))
    (brk st) (ctx st) (ctx_mem st) (options_mem st)
    (program_invocation_name st) (output st).







(** A text without a newline character. *)
Definition no_newline (l : list ascii) : bool :=
  forallb (fun c => negb (Ascii.eqb c NEWLINE)) l.

(** A line made of white space only. *)
Definition blank (line : string) : bool := forallb isspace (chars line).

(** A text without a NUL character, as every C string is. *)
Definition no_nul (l : list ascii) : bool :=
  forallb (fun c => negb (Ascii.eqb c NUL)) l.

(** A command word: not empty, without white space and without NUL. *)
Definition is_word (w : string) : bool :=
  negb (String.eqb w EmptyString)
  && forallb (fun c => negb (isspace c)) (chars w)
  && no_nul (chars w).

(** The fields of a text without their last one when that one is empty. *)
Fixpoint drop_trailing_empty (fs : list (list ascii)) : list (list ascii) :=
  match fs with
  | [] => []
  | [f] =>
      match f with
      | [] => []
      | _ => [f]
      end
  | f :: rest => f :: drop_trailing_empty rest
  end.

(** The state in which [main], started under a registered name with the
    argument vector [args], runs the handler. *)
Definition direct_state (args : list string) : state :=
  mk_state (<[2%positive := Live]> (<[1%positive := Live]> ∅)) 3%positive
    (Some 1%positive)
    (mk_ctx (Z.of_nat (length args)) (Argv (after_basename args)) None None
       (Some 2%positive) None false)
    (mk_options false []) (basename (hd "" args)) [].

(** What [parse_options] does once it has decided to connect. *)
Definition connect_at_startup (ext : externals) : prog unit :=
  let* r := call ext cli_connect in
  if r =? -1 then exit EXIT_FAILURE
  else
    let* r := apply_xlator_options ext in
    if r =? -1 then exit EXIT_FAILURE else ret tt.

(** [st] with [e] printed. *)
Definition printed (es : list out_event) (st : state) : state :=
  mk_state (heap st) (brk st) (ctx st) (ctx_mem st) (options_mem st)
    (program_invocation_name st) (output st ++ es).

(** The course of the loop body once a command was found and the line
    was split into [n] arguments [args]: the handler runs between the two
    updates of the context. *)
Definition run_command (ext : externals) (c : cmd) (n : Z)
    (args : list string) : prog (option Z) :=
  let* _ := set_ctx (fun x => mk_ctx n (Argv args) (conn_str x) (fs x)
                                (options x) (url x) (in_shell x)) in
  let* _ := set_program_invocation_name (hd "" args) in
  let* _ := call ext (execute c) in
  let* _ := set_ctx (fun x => mk_ctx (argc x) ArgvNull (conn_str x) (fs x)
                                (options x) (url x) (in_shell x)) in
  ret None.

(** The course of the loop body when no command was found. *)
Definition report_unknown (token : string) : prog (option Z) :=
  let* _ := print (Stderr (unknown_command_text token)) in
  ret None.

(** [*ctx] and [*ctx->options] can both be accessed. *)
Definition options_live (st : state) : Prop :=
  ctx_live st
  /\ exists q, options (ctx_mem st) = Some q /\ heap st !! q = Some Live.

(** [st] with the list of translator options replaced. *)
Definition with_xlator_options (l : list xlator_option) (st : state) : state :=
  mk_state (heap st) (brk st) (ctx st) (ctx_mem st)
    (mk_options (debug (options_mem st)) l)
    (program_invocation_name st) (output st).

(** The arguments [-o v] for each [v] of a list. *)
Definition short_options (vs : list string) : list string :=
  flat_map (fun v => ["-o"; v]) vs.

(** * Properties *)

Example getopt_long_form :
  getopt_long ["--xlator-option=a.b=c"; "glfs://localhost/groot"]
  = mk_call [] (GetoptOption "o" (Some "a.b=c") (Some 3%nat))
      ["--xlator-option=a.b=c"] ["glfs://localhost/groot"].
Proof. reflexivity. Qed.

Example getopt_short_form :
  getopt_long ["-o"; "a.b=c"; "glfs://localhost/groot"]
  = mk_call [] (GetoptOption "o" (Some "a.b=c") None)
      ["-o"; "a.b=c"] ["glfs://localhost/groot"].
Proof. reflexivity. Qed.

Example getopt_abbrev :
  getopt_long ["url"; "--deb"]
  = mk_call ["url"] (GetoptOption "d" None (Some 0%nat)) ["--deb"] [].
Proof. reflexivity. Qed.

Example getopt_d :
  getopt_long ["-d"] = mk_call [] (GetoptError (InvalidShort "d")) ["-d"] []
  /\ getopt_message "gfcli" (InvalidShort "d")
     = "gfcli: invalid option -- 'd'" +:+ nl.
Proof. split; reflexivity. Qed.

Example getopt_ambiguous :
  go_result (getopt_long ["--=x"])
  = GetoptError
      (AmbiguousLong "=x" ["debug"; "help"; "version"; "xlator-option"])
  /\ getopt_message "gfcli"
       (AmbiguousLong "=x" ["debug"; "help"; "version"; "xlator-option"])
     = "gfcli: option '--=x' is ambiguous; possibilities: '--debug' '--help' '--version' '--xlator-option'"
       +:+ nl.
Proof. split; reflexivity. Qed.

Example getopt_messages :
  go_result (getopt_long ["--port=24007"])
  = GetoptError (UnrecognizedLong "port=24007")
  /\ getopt_message "gfcli" (UnrecognizedLong "port=24007")
     = "gfcli: unrecognized option '--port=24007'" +:+ nl
  /\ go_result (getopt_long ["--debug=1"])
     = GetoptError (UnexpectedArgument "debug")
  /\ go_result (getopt_long ["--xlator"])
     = GetoptError (MissingArgumentLong "xlator-option")
  /\ go_result (getopt_long ["-o"]) = GetoptError (MissingArgumentShort "o").
Proof. repeat split; reflexivity. Qed.

(** Options after elements that are no options are moved before them in
    [ctx->argv], which is what [cli_connect] then sees; a double dash is
    moved as an option is. *)
Example parse_options_permutes :
  (exists st',
     parse_options logging_externals
       (startup_state ["gfcli"; "glfs://h/v"; "--debug"]) = Ok tt st'
     /\ argv (ctx_mem st') = Argv ["gfcli"; "--debug"; "glfs://h/v"]
     /\ output st' = [Stdout "cli_connect"; Stdout "apply_xlator_options"])
  /\ (exists st',
        parse_options logging_externals
          (startup_state ["gfcli"; "a"; "-o"; "x.y=z"; "b"; "--"; "-c"])
        = Ok tt st'
        /\ argv (ctx_mem st')
           = Argv ["gfcli"; "-o"; "x.y=z"; "--"; "a"; "b"; "-c"]).
Proof.
  split; eexists; (split; [vm_compute; reflexivity|]); try split; reflexivity.
Qed.

Example basename_path : basename "/usr/bin/gfls" = "gfls".
Proof. reflexivity. Qed.

Example basename_trailing_slash :
  basename "/usr/bin/gfls/" = "gfls"
  /\ after_basename ["/usr/bin/gfls//"; "-l"] = ["/usr/bin/gfls"; "-l"].
Proof. split; reflexivity. Qed.

Example basename_corner_cases :
  basename "" = "." /\ basename "///" = "/" /\ basename "gfcli" = "gfcli".
Proof. repeat split; reflexivity. Qed.

Example get_cmd_ls : get_cmd "ls" = Some (mk_cmd (Some "gfls") "ls" do_ls).
Proof. reflexivity. Qed.

Example split_ls :
  split_str ("ls -a /vol" +:+ nl) true = Some (3, Argv ["ls"; "-a"; "/vol"]).
Proof. reflexivity. Qed.

Example split_gap :
  split_str ("ls  -a" +:+ nl) true = Some (3, Argv ["ls"; ""; "-a"]).
Proof. reflexivity. Qed.

Example split_trailing : split_str "ls " true = Some (2, Argv ["ls"]).
Proof. reflexivity. Qed.

Example trim_ls : trim ("ls" +:+ nl) = Trimmed (chars "ls" ++ [NUL; NUL]).
Proof. vm_compute. reflexivity. Qed.

Example trim_nl : trim nl = OutOfBounds SIZE_MAX [NUL; NUL].
Proof. vm_compute. reflexivity. Qed.

Example strtok_lead : strtok_r (" ls" +:+ nl) " " = Some ("ls" +:+ nl).
Proof. reflexivity. Qed.

Example main_eof :
  match main logging_externals ["gfcli"] true true [] initial_state with
  | Ok r st => r = 1 /\ output st = [Stdout "gfcli> "; Stdout "gfcli> "]
  | _ => False
  end.
Proof. vm_compute. split; reflexivity. Qed.


Example main_parses_options (ext : externals) (stdin : list input_line) :
  main ext ["gfcli"; "--xlator-option=a.b=c"; "glfs://localhost/groot"]
    true true stdin initial_state
  = (let* _ := parse_options ext in
     let* _ := set_ctx (fun x => mk_ctx 0 ArgvNull (conn_str x) (fs x)
                                   (options x) (url x) (in_shell x)) in
     let* (_, rest) := start_shell ext stdin in
     let* o := get_options in
     let* _ := if debug o then print_xlator_options ext else ret tt in
     let* (r, _) := start_shell ext rest in
     let* _ := cleanup in
     ret (if r =? -1 then EXIT_FAILURE else r))
      (startup_state
         ["gfcli"; "--xlator-option=a.b=c"; "glfs://localhost/groot"]).
Proof. reflexivity. Qed.

(** ** The command registry *)

Lemma strcmp_zero (a b : string) : (strcmp a b =? 0) = String.eqb a b.
Proof.
  unfold strcmp. destruct (String.eqb_spec a b) as [->|Hne].
  - pose proof (String.compare_antisym b b) as H.
    destruct (String.compare b b); simpl in H; try discriminate; reflexivity.
  - destruct (String.compare a b) eqn:Hc; try reflexivity.
    apply String.compare_eq_iff in Hc. contradiction.
Qed.

Lemma cmd_matches_iff (nm : string) (c : cmd) :
  cmd_matches nm c = true <-> nm = name c \/ alias c = Some nm.
Proof.
  unfold cmd_matches. rewrite orb_true_iff, strcmp_zero, String.eqb_eq.
  destruct (alias c) as [a|].
  - rewrite strcmp_zero, String.eqb_eq. split.
    + intros [H|H]; [left | right]; congruence.
    + intros [H|H]; [left | right]; congruence.
  - split.
    + intros [H|H]; [left; exact H | discriminate].
    + intros [H|H]; [left; exact H | discriminate].
Qed.

Lemma get_cmd_first_match (nm : string) :
  get_cmd nm = List.find (cmd_matches nm) cmds.
Proof. reflexivity. Qed.

Lemma get_cmd_registry_lookup (nm : string) : get_cmd nm = registry_lookup nm.
Proof.
  rewrite get_cmd_first_match. unfold registry_lookup.
  induction cmds as [|c l IH]; [reflexivity|].
  simpl. unfold cmd_matches at 1. rewrite strcmp_zero.
  destruct (alias c); [rewrite strcmp_zero|]; rewrite IH; reflexivity.
Qed.

Lemma find_first_match {A} (f : A -> bool) (l : list A) (x : A) :
  List.find f l = Some x ->
  exists pre post,
    l = pre ++ x :: post /\ f x = true /\ Forall (fun y => f y = false) pre.
Proof.
  induction l as [|y l IH]; simpl; [discriminate|].
  destruct (f y) eqn:Hy.
  - intros [= ->]. exists [], l. repeat split; [exact Hy | constructor].
  - intros H. destruct (IH H) as (pre & post & -> & Hx & Hpre).
    exists (y :: pre), post. repeat split; [exact Hx | constructor; assumption].
Qed.

(** C8: every entry of the table is found by its name and, when it has
    one, by its alias, and the lookup gives back that very entry; a string
    matches an entry exactly when it equals the name or the alias (no
    folding of case, no prefix), and the entry returned is the first one
    in table order that matches. *)
Theorem get_cmd_name_and_alias (c : cmd) (Hc : In c cmds) :
  get_cmd (name c) = Some c
  /\ (forall a, alias c = Some a -> get_cmd a = Some c)
  /\ (forall nm, cmd_matches nm c = true <-> nm = name c \/ alias c = Some nm)
  /\ (forall nm, get_cmd nm = registry_lookup nm)
  /\ (forall nm c', get_cmd nm = Some c' ->
        exists pre post,
          cmds = pre ++ c' :: post /\ cmd_matches nm c' = true
          /\ Forall (fun y => cmd_matches nm y = false) pre)
  /\ get_cmd "LS" = None /\ get_cmd "l" = None /\ get_cmd "lss" = None.
Proof.
  split; [|split; [|split; [|split; [|split]]]].
  - simpl in Hc.
    repeat (destruct Hc as [<-|Hc]; [reflexivity|]). contradiction.
  - intros a Ha. simpl in Hc.
    repeat (destruct Hc as [<-|Hc];
            [simpl in Ha; first [discriminate | injection Ha as <-; reflexivity]|]).
    contradiction.
  - intros nm. apply cmd_matches_iff.
  - apply get_cmd_registry_lookup.
  - intros nm c' H. rewrite get_cmd_first_match in H.
    apply find_first_match in H. exact H.
  - repeat split; reflexivity.
Qed.

Lemma get_cmd_name_and_alias_witness :
  In (mk_cmd (Some "gfls") "ls" do_ls) cmds
  /\ get_cmd "ls" = Some (mk_cmd (Some "gfls") "ls" do_ls)
  /\ get_cmd "gfls" = Some (mk_cmd (Some "gfls") "ls" do_ls).
Proof.
  assert (Hin : In (mk_cmd (Some "gfls") "ls" do_ls) cmds)
    by (simpl; do 5 right; left; reflexivity).
  destruct (get_cmd_name_and_alias _ Hin) as (Hname & Halias & _).
  split; [exact Hin|]. split; [exact Hname|].
  apply Halias. reflexivity.
Defined.

(** C4, as the table has it: [quit] is found and names the quit handler;
    [exit] is no entry of the table, so a line [exit] is answered with the
    unknown-command message. *)
Theorem get_cmd_quit_only :
  get_cmd "quit" = Some (mk_cmd None "quit" handle_quit)
  /\ get_cmd "exit" = None
  /\ forall ext,
       shell_line ext (typed ("exit" +:+ nl))
       = (let* _ := print (Stderr (unknown_command_text "exit")) in ret None).
Proof. repeat split; reflexivity. Qed.

(** C4 as stated fails: the lookup of [exit] does not succeed. *)
Lemma get_cmd_exit_fails :
  ~ (is_Some (get_cmd "quit") /\ is_Some (get_cmd "exit")).
Proof. intros [_ [c Hc]]. discriminate Hc. Qed.

(** C10: [mv] and [gfmv] are both found, as the entry of the
    not-implemented stub; the list that [help] prints has no item [mv];
    a line [mv] runs the stub's handler with [argv = {"mv"}]. *)
Theorem get_cmd_mv_registered :
  get_cmd "mv" = Some (mk_cmd (Some "gfmv") "mv" not_implemented)
  /\ get_cmd "gfmv" = Some (mk_cmd (Some "gfmv") "mv" not_implemented)
  /\ help_lists "mv" = false
  /\ help_lists "ls" = true
  /\ forall ext,
       shell_line ext (typed ("mv" +:+ nl))
       = (let* _ := set_ctx (fun x => mk_ctx 1 (Argv ["mv"]) (conn_str x)
                                        (fs x) (options x) (url x)
                                        (in_shell x)) in
          let* _ := set_program_invocation_name "mv" in
          let* _ := run_handler ext not_implemented in
          let* _ := set_ctx (fun x => mk_ctx (argc x) ArgvNull (conn_str x)
                                        (fs x) (options x) (url x)
                                        (in_shell x)) in
          ret None).
Proof. repeat split; reflexivity. Qed.

(** ** trim *)

Lemma size_wrap_small (n : nat) :
  Z.of_nat n <= SIZE_MAX -> size_wrap (Z.of_nat n) = Z.of_nat n.
Proof.
  intros H. unfold size_wrap. apply Z.mod_small.
  unfold SIZE_MAX in H. lia.
Qed.

Lemma size_wrap_pred (n : nat) :
  Z.of_nat (S n) <= SIZE_MAX -> size_wrap (Z.of_nat (S n) - 1) = Z.of_nat n.
Proof.
  intros H. replace (Z.of_nat (S n) - 1) with (Z.of_nat n) by lia.
  apply size_wrap_small. lia.
Qed.

Lemma size_wrap_underflow : size_wrap (0 - 1) = SIZE_MAX.
Proof. reflexivity. Qed.

Lemma load_middle (pre suf : list ascii) (c : ascii) :
  load (pre ++ c :: suf) (Z.of_nat (length pre)) = Some c.
Proof.
  unfold load.
  assert (H : (0 <=? Z.of_nat (length pre)) &&
              (Z.of_nat (length pre) <? Z.of_nat (length (pre ++ c :: suf))) = true).
  { rewrite length_app. simpl. apply andb_true_iff. split.
    - apply Z.leb_le. lia.
    - apply Z.ltb_lt. lia. }
  rewrite H, Nat2Z.id. apply list_lookup_middle. reflexivity.
Qed.

Lemma load_beyond (buf : list ascii) (i : Z) :
  Z.of_nat (length buf) <= i -> load buf i = None.
Proof.
  intros H. unfold load.
  assert (Hlt : (i <? Z.of_nat (length buf)) = false) by (apply Z.ltb_ge; lia).
  rewrite Hlt, andb_false_r. reflexivity.
Qed.

Lemma store_middle (pre suf : list ascii) (c x : ascii) :
  store (pre ++ c :: suf) (Z.of_nat (length pre)) x = pre ++ x :: suf.
Proof.
  unfold store. rewrite Nat2Z.id.
  replace (length pre) with (length pre + 0)%nat at 1 by lia.
  rewrite insert_app_r. reflexivity.
Qed.

Lemma repeat_shift {A} (x : A) (n : nat) (suf : list A) :
  repeat x n ++ x :: suf = repeat x (S n) ++ suf.
Proof.
  change (repeat x (S n)) with (x :: repeat x n).
  rewrite repeat_cons, <- app_assoc. reflexivity.
Qed.

(** On a buffer whose part below the start index is white space, the loop
    clears that part and then reads at index [SIZE_MAX]. *)
Lemma trim_loop_blank (pre : list ascii) :
  forall (suf : list ascii) (fuel : nat),
    forallb isspace pre = true ->
    (length pre < fuel)%nat ->
    Z.of_nat (length (pre ++ suf)) <= SIZE_MAX ->
    trim_loop fuel (pre ++ suf) (size_wrap (Z.of_nat (length pre) - 1))
    = OutOfBounds SIZE_MAX (repeat NUL (length pre) ++ suf).
Proof.
  induction pre as [|c pre IH] using rev_ind; intros suf fuel Hsp Hfuel Hlen.
  - destruct fuel as [|fuel]; [simpl in Hfuel; lia|].
    cbn [length app repeat trim_loop]. change (Z.of_nat 0 - 1) with (0 - 1).
    rewrite size_wrap_underflow.
    rewrite load_beyond by exact Hlen. reflexivity.
  - rewrite forallb_app in Hsp. apply andb_true_iff in Hsp as [Hpre Hc].
    simpl in Hc. rewrite andb_true_r in Hc.
    rewrite length_app in *. simpl in *.
    destruct fuel as [|fuel]; [lia|].
    rewrite <- app_assoc in *. simpl in *.
    replace (length pre + 1)%nat with (S (length pre)) in * by lia.
    rewrite size_wrap_pred by (rewrite length_app in Hlen; simpl in Hlen; lia).
    assert (H0 : (0 <=? Z.of_nat (length pre)) = true) by (apply Z.leb_le; lia).
    rewrite H0, load_middle, Hc, store_middle.
    rewrite (IH (NUL :: suf) fuel Hpre) by
      (try lia; rewrite length_app in *; simpl in *; lia).
    rewrite repeat_shift. reflexivity.
Qed.

(** The loop model never stops for lack of fuel. *)
Lemma trim_loop_fuel (pre : list ascii) :
  forall (suf : list ascii) (fuel : nat),
    (length pre < fuel)%nat ->
    Z.of_nat (length (pre ++ suf)) <= SIZE_MAX ->
    trim_loop fuel (pre ++ suf) (size_wrap (Z.of_nat (length pre) - 1))
    <> OutOfFuel.
Proof.
  induction pre as [|c pre IH] using rev_ind; intros suf fuel Hfuel Hlen.
  - rewrite (trim_loop_blank [] suf fuel); [discriminate|reflexivity|exact Hfuel|exact Hlen].
  - rewrite length_app in *. simpl in *.
    destruct fuel as [|fuel]; [lia|].
    rewrite <- app_assoc in *. simpl in *.
    replace (length pre + 1)%nat with (S (length pre)) in * by lia.
    rewrite size_wrap_pred by (rewrite length_app in Hlen; simpl in Hlen; lia).
    assert (H0 : (0 <=? Z.of_nat (length pre)) = true) by (apply Z.leb_le; lia).
    rewrite H0, load_middle, store_middle.
    destruct (isspace c); [|discriminate].
    apply IH; [lia|]. rewrite length_app in *. simpl in *. lia.
Qed.

Lemma length_chars (s : string) : length (chars s) = String.length s.
Proof.
  unfold chars. induction s as [|c s IH]; simpl; congruence.
Qed.

Lemma trim_total (str : string) : strlen str < SIZE_MAX -> trim str <> OutOfFuel.
Proof.
  intros H. unfold trim, buffer_of, strlen in *.
  rewrite <- length_chars in *. apply trim_loop_fuel; [lia|].
  rewrite length_app. simpl. lia.
Qed.

Lemma trim_blank (token : string) :
  blank token = true -> strlen token < SIZE_MAX ->
  trim token
  = OutOfBounds SIZE_MAX (repeat NUL (S (String.length token))).
Proof.
  intros Hb H. unfold trim, buffer_of, strlen, blank in *.
  rewrite <- length_chars in *.
  rewrite trim_loop_blank; [|exact Hb|lia|rewrite length_app; simpl; lia].
  rewrite <- repeat_cons. reflexivity.
Qed.

(** C9 fails on the code.  For the line of one space and a newline the
    first token is the newline; [trim] clears it at index 0, decrements
    the unsigned index past zero and reads the token at index [SIZE_MAX],
    so the loop body has no defined course.  The same holds of every
    token made of white space only. *)
Theorem trim_index_wraps_below_zero :
  strtok_r (" " +:+ nl) " " = Some nl
  /\ trim nl = OutOfBounds SIZE_MAX [NUL; NUL]
  /\ (forall ext, shell_line ext (typed (" " +:+ nl)) = undefined OutOfBoundsRead)
  /\ (forall token,
        blank token = true -> strlen token < SIZE_MAX ->
        exists buf, trim token = OutOfBounds SIZE_MAX buf
                    /\ cstring buf = EmptyString).
Proof.
  split; [reflexivity|]. split; [vm_compute; reflexivity|].
  split; [intros ext; vm_compute; reflexivity|].
  intros token Hb Hlen. eexists. split; [apply trim_blank; assumption|].
  reflexivity.
Qed.

Lemma trim_index_wraps_below_zero_witness :
  blank (String TAB nl) = true /\ strlen (String TAB nl) < SIZE_MAX
  /\ exists buf, trim (String TAB nl) = OutOfBounds SIZE_MAX buf
                 /\ cstring buf = EmptyString.
Proof.
  split; [reflexivity|]. split; [reflexivity|].
  destruct trim_index_wraps_below_zero as (_ & _ & _ & H).
  apply H; reflexivity.
Defined.

(** ** split_str *)

Lemma count_spaces_nonneg (l : list ascii) : 0 <= count_spaces l.
Proof. induction l as [|c l IH]; simpl; [lia|]. destruct (Ascii.eqb c SPACE); lia. Qed.

Lemma count_spaces_app (l1 l2 : list ascii) :
  count_spaces (l1 ++ l2) = count_spaces l1 + count_spaces l2.
Proof. induction l1 as [|c l1 IH]; simpl; [lia|]. rewrite IH. lia. Qed.

Lemma count_args_spec (line : list ascii) :
  forall argc : Z,
    argc <= INT_MAX ->
    count_args line argc
    = if argc + count_spaces line <=? INT_MAX
      then Some (argc + count_spaces line)
      else None.
Proof.
  induction line as [|c line IH]; intros argc Ha.
  - cbn [count_args count_spaces]. rewrite Z.add_0_r.
    destruct (Z.leb_spec argc INT_MAX); [reflexivity | lia].
  - cbn [count_args count_spaces]. pose proof (count_spaces_nonneg line).
    destruct (Ascii.eqb c SPACE).
    + unfold int_incr. destruct (Z.ltb_spec argc INT_MAX).
      * rewrite IH by lia.
        replace (argc + 1 + count_spaces line)
          with (argc + (1 + count_spaces line)) by lia.
        reflexivity.
      * destruct (Z.leb_spec (argc + (1 + count_spaces line)) INT_MAX);
          [lia | reflexivity].
    + rewrite IH by exact Ha. reflexivity.
Qed.

(** Below the overflow [split_str] is what its two loops give for
    [argc = N + 1]. *)
Lemma split_str_unfold (line : string) (ok : bool) :
  count_spaces (chars line) + 1 <= INT_MAX ->
  split_str line ok
  = (let argc := count_spaces (chars line) + 1 in
     if ok then
       match fill_args (Z.to_nat argc) (Some (chars line)) with
       | Some toks => Some (argc, Argv toks)
       | None => None
       end
     else Some (argc, ArgvNull)).
Proof.
  intros H. unfold split_str.
  rewrite count_args_spec by (unfold INT_MAX; lia). rewrite Z.add_0_l.
  destruct (Z.leb_spec (count_spaces (chars line)) INT_MAX); [|lia].
  unfold int_incr.
  destruct (Z.ltb_spec (count_spaces (chars line)) INT_MAX); [|lia].
  reflexivity.
Qed.

Lemma split_str_overflow (line : string) (ok : bool) :
  INT_MAX < count_spaces (chars line) + 1 ->
  split_str line ok = None /\ split_str_fault line = true.
Proof.
  intros H. unfold split_str, split_str_fault.
  rewrite count_args_spec by (unfold INT_MAX; lia). rewrite Z.add_0_l.
  destruct (Z.leb_spec (count_spaces (chars line)) INT_MAX);
    [|split; reflexivity].
  unfold int_incr.
  destruct (Z.ltb_spec (count_spaces (chars line)) INT_MAX); [lia|].
  split; reflexivity.
Qed.

Lemma chars_append (a b : string) : chars (a +:+ b) = chars a ++ chars b.
Proof. unfold chars. induction a as [|c a IH]; simpl; [reflexivity|]. rewrite IH. reflexivity. Qed.

(** Where the inner loop stops: past a space or newline, with at most one
    space consumed, or past the terminator of a text without spaces. *)
Lemma scan_arg_count (l : list ascii) :
  match snd (scan_arg l) with
  | Some rest => count_spaces l <= count_spaces rest + 1
  | None => count_spaces l = 0
  end.
Proof.
  induction l as [|c l IH]; simpl; [reflexivity|].
  destruct (Ascii.eqb_spec c SPACE) as [->|Hsp]; simpl.
  - lia.
  - destruct (Ascii.eqb c NEWLINE); simpl; [lia|].
    destruct (scan_arg l) as [tok after]. simpl in *. exact IH.
Qed.

(** The second loop never reads past the terminator: it stops on
    [cur_arg < argc] first. *)
Lemma fill_args_defined (slots : nat) :
  forall after : option (list ascii),
    match after with
    | Some rest => Z.of_nat slots <= count_spaces rest + 1
    | None => slots = 0%nat
    end ->
    exists toks, fill_args slots after = Some toks.
Proof.
  induction slots as [|slots IH]; intros after H; [exists []; reflexivity|].
  destruct after as [[|c l]|]; [exists []; reflexivity| |discriminate].
  cbn [fill_args].
  pose proof (scan_arg_count (c :: l)) as Hc.
  destruct (scan_arg (c :: l)) as [tok after]. cbn [snd] in Hc.
  destruct (IH after) as [toks Htoks].
  - destruct after as [rest|]; lia.
  - rewrite Htoks. eexists. reflexivity.
Qed.

Lemma count_args_ge (line : list ascii) :
  forall argc n : Z, count_args line argc = Some n -> argc <= n.
Proof.
  induction line as [|c line IH]; intros argc n H; cbn [count_args] in H.
  - injection H as <-. lia.
  - destruct (Ascii.eqb c SPACE); [|exact (IH _ _ H)].
    unfold int_incr in H. destruct (argc <? INT_MAX); [|discriminate].
    apply IH in H. lia.
Qed.

(** A count that [split_str] returns is never 0. *)
Lemma split_str_positive (line : string) (ok : bool) (n : Z) (av : argv_array) :
  split_str line ok = Some (n, av) -> 0 < n.
Proof.
  unfold split_str. destruct (count_args (chars line) 0) as [m|] eqn:Hm;
    [|discriminate].
  apply count_args_ge in Hm. unfold int_incr.
  destruct (m <? INT_MAX); [|discriminate].
  destruct ok; [destruct (fill_args _ _); [|discriminate]|];
    intros [= <- _]; lia.
Qed.

Lemma split_str_argc (line : string) (ok : bool) :
  count_spaces (chars line) + 1 <= INT_MAX ->
  exists av, split_str line ok = Some (count_spaces (chars line) + 1, av).
Proof.
  intros Hb. rewrite split_str_unfold by exact Hb. cbv zeta.
  destruct ok; [|eexists; reflexivity].
  destruct (fill_args_defined (Z.to_nat (count_spaces (chars line) + 1))
              (Some (chars line))) as [toks H].
  - pose proof (count_spaces_nonneg (chars line)). lia.
  - rewrite H. eexists. reflexivity.
Qed.

Lemma space_fields_length (l : list ascii) :
  Z.of_nat (length (space_fields l)) = count_spaces l + 1.
Proof.
  induction l as [|c l IH]; [reflexivity|].
  cbn [space_fields count_spaces].
  destruct (Ascii.eqb c SPACE).
  - cbn [length]. lia.
  - pose proof (count_spaces_nonneg l).
    destruct (space_fields l) as [|f fs]; cbn [length] in *; lia.
Qed.

Lemma space_fields_nonempty (l : list ascii) : space_fields l <> [].
Proof.
  intros H. pose proof (space_fields_length l) as Hl.
  pose proof (count_spaces_nonneg l). rewrite H in Hl. simpl in Hl. lia.
Qed.

(** On a text that ends in its only newline, the two loops of the
    tokenizer cut out the fields between the spaces. *)
Lemma scan_fill_fields (body : list ascii) :
  no_newline body = true ->
  forall f fs,
    space_fields body = f :: fs ->
    fst (scan_arg (body ++ [NEWLINE])) = f
    /\ fill_args (length fs) (snd (scan_arg (body ++ [NEWLINE])))
       = Some (map string_of_list_ascii fs).
Proof.
  induction body as [|c b IH]; intros Hnl f fs Hf.
  - injection Hf as <- <-. split; reflexivity.
  - cbn [no_newline forallb] in Hnl. apply andb_true_iff in Hnl as [Hc Hb].
    apply negb_true_iff in Hc.
    cbn [space_fields] in Hf. cbn [app scan_arg]. rewrite Hc, orb_false_r.
    destruct (Ascii.eqb c SPACE) eqn:Hsp.
    + injection Hf as <- <-. split; [reflexivity|]. cbn [snd].
      destruct (space_fields b) as [|f' fs'] eqn:Hb'.
      { exfalso. exact (space_fields_nonempty b Hb'). }
      destruct (IH Hb f' fs' eq_refl) as [Hfst Hfill].
      cbn [length].
      assert (Hne : exists x y, b ++ [NEWLINE] = x :: y)
        by (destruct b; simpl; eauto).
      destruct Hne as (x & y & Hxy). rewrite Hxy in *.
      cbn [fill_args]. destruct (scan_arg (x :: y)) as [tok after].
      cbn [fst snd] in *. rewrite Hfill, Hfst. reflexivity.
    + destruct (space_fields b) as [|f' fs'] eqn:Hb'.
      { exfalso. exact (space_fields_nonempty b Hb'). }
      injection Hf as <- <-.
      destruct (IH Hb f' fs' eq_refl) as [Hfst Hfill].
      destruct (scan_arg (b ++ [NEWLINE])) as [tok after].
      cbn [fst snd] in *. subst tok. split; [reflexivity | exact Hfill].
Qed.

Lemma split_str_fields (body : string) :
  no_newline (chars body) = true ->
  count_spaces (chars body) + 1 <= INT_MAX ->
  split_str (body +:+ nl) true
  = Some (count_spaces (chars body) + 1,
          Argv (map string_of_list_ascii (space_fields (chars body)))).
Proof.
  intros Hnl Hb.
  rewrite split_str_unfold
    by (rewrite chars_append, count_spaces_app;
        change (count_spaces (chars nl)) with 0; lia).
  cbv zeta.
  rewrite chars_append. change (chars nl) with [NEWLINE].
  rewrite count_spaces_app. change (count_spaces [NEWLINE]) with 0.
  rewrite Z.add_0_r.
  destruct (space_fields (chars body)) as [|f fs] eqn:Hf.
  { exfalso. exact (space_fields_nonempty _ Hf). }
  pose proof (space_fields_length (chars body)) as Hlen.
  rewrite Hf in Hlen. cbn [length] in Hlen.
  replace (Z.to_nat (count_spaces (chars body) + 1)) with (S (length fs)) by lia.
  destruct (scan_fill_fields (chars body) Hnl f fs Hf) as [Hfst Hfill].
  assert (Hne : exists x y, chars body ++ [NEWLINE] = x :: y)
    by (destruct (chars body); simpl; eauto).
  destruct Hne as (x & y & Hxy). rewrite Hxy in *.
  cbn [fill_args]. destruct (scan_arg (x :: y)) as [tok after].
  cbn [fst snd] in *. rewrite Hfill, Hfst. reflexivity.
Qed.

Lemma split_str_leading_space (line : string) :
  count_spaces (chars line) + 2 <= INT_MAX ->
  exists n toks,
    split_str (String SPACE line) true = Some (n, Argv (EmptyString :: toks)).
Proof.
  intros Hb.
  assert (Hb' : count_spaces (chars (String SPACE line)) + 1 <= INT_MAX).
  { change (count_spaces (chars (String SPACE line)))
      with (1 + count_spaces (chars line)). lia. }
  destruct (split_str_argc (String SPACE line) true Hb') as [av H].
  rewrite H. rewrite (split_str_unfold _ _ Hb') in H. cbv zeta in H.
  destruct (fill_args _ _) as [toks|] eqn:Hfill in H; [|discriminate].
  injection H as <-.
  change (chars (String SPACE line)) with (SPACE :: chars line) in Hfill.
  cbn [count_spaces] in Hfill.
  change (Ascii.eqb SPACE SPACE) with true in Hfill.
  pose proof (count_spaces_nonneg (chars line)) as Hnn.
  destruct (Z.to_nat (1 + count_spaces (chars line) + 1)) as [|k] eqn:Hk; [lia|].
  cbn [fill_args scan_arg] in Hfill.
  change (Ascii.eqb SPACE SPACE) with true in Hfill. cbn [orb] in Hfill.
  destruct (fill_args k (Some (chars line))) as [rest|]; [|discriminate].
  injection Hfill as <-. eexists _, _. reflexivity.
Qed.

Lemma strtok_r_leading_space (line : string) :
  strtok_r (String SPACE line) " " = strtok_r line " ".
Proof. reflexivity. Qed.

(** ** The shell loop *)

Lemma bind_Ok {A B} (m : prog A) (k : A -> prog B) st b st' :
  bind m k st = Ok b st' ->
  exists a s, m st = Ok a s /\ k a s = Ok b st'.
Proof.
  unfold bind. destruct (m st) as [a s| |]; try discriminate.
  intros H. exists a, s. split; [reflexivity | exact H].
Qed.

Ltac bind_inv H :=
  let a := fresh "a" in
  let s := fresh "s" in
  let Hm := fresh "Hm" in
  apply bind_Ok in H; destruct H as (a & s & Hm & H).

Lemma get_ctx_live (st : state) :
  ctx_live st -> get_ctx st = Ok (ctx_mem st) st.
Proof.
  intros (p & Hp & Hl). unfold get_ctx, check_live. rewrite Hp, Hl. reflexivity.
Qed.

Lemma set_ctx_live (f : cli_context -> cli_context) (st : state) :
  ctx_live st ->
  exists st', set_ctx f st = Ok tt st' /\ ctx_live st'.
Proof.
  intros Hl. unfold set_ctx, bind. rewrite (get_ctx_live st Hl).
  eexists. split; [reflexivity | exact Hl].
Qed.

Lemma print_live (e : out_event) (st : state) :
  ctx_live st ->
  exists st', print e st = Ok tt st' /\ ctx_live st'.
Proof. intros Hl. eexists. split; [reflexivity | exact Hl]. Qed.




Lemma dispatch_null_argv (ext : externals) (c : cmd) (l : input_line)
    (st : state) :
  ctx_live st -> malloc_ok l = false ->
  count_spaces (chars (text l)) + 1 <= INT_MAX ->
  dispatch ext c l st = Undefined NullDeref.
Proof.
  intros Hl Hm Hb. unfold dispatch. rewrite Hm.
  rewrite (split_str_unfold (text l) false Hb). cbv zeta.
  pose proof (count_spaces_nonneg (chars (text l))) as Hnn.
  unfold bind at 1.
  destruct (set_ctx_live
              (fun x => mk_ctx (count_spaces (chars (text l)) + 1) ArgvNull
                          (conn_str x) (fs x) (options x) (url x)
                          (in_shell x)) st Hl) as (st1 & H1 & _).
  rewrite H1.
  destruct (Z.eqb_spec (count_spaces (chars (text l)) + 1) 0) as [|_]; [lia|].
  reflexivity.
Qed.

Section ShellLoop.

Variable ext : externals.








End ShellLoop.


Lemma ready_state_live : ctx_live ready_state.
Proof. exists 1%positive. split; reflexivity. Qed.



(** C6, as the loop has it: a line that begins with the newline character
    is skipped; nothing is looked up, run or printed for it, and the loop
    is back at the prompt.  The test looks at the first character only. *)
Theorem lone_newline_is_skipped (ext : externals) (l : input_line) :
  starts_with_newline (text l) = true ->
  shell_line ext l = ret None
  /\ forall rest,
       start_shell ext (l :: rest)
       = (let* c := get_ctx in
          let* _ := print (Stdout (prompt_text (conn_str c))) in
          start_shell ext rest).
Proof.
  intros H.
  assert (Hs : shell_line ext l = ret None)
    by (unfold shell_line; rewrite H; reflexivity).
  split; [exact Hs|]. intros rest. cbn [start_shell]. rewrite Hs. reflexivity.
Qed.

Lemma lone_newline_is_skipped_witness :
  starts_with_newline (text (typed nl)) = true
  /\ shell_line logging_externals (typed nl) = ret None.
Proof.
  split; [reflexivity|].
  apply (lone_newline_is_skipped logging_externals (typed nl)). reflexivity.
Defined.

(** C6 as stated fails: a line of three spaces and a newline is white
    space only, yet the loop does not skip it. *)
Lemma blank_line_is_not_skipped :
  ~ (forall l,
       blank (text l) = true ->
       shell_line logging_externals l ready_state = ret None ready_state).
Proof.
  intros H. specialize (H (typed ("   " +:+ nl)) eq_refl).
  vm_compute in H. discriminate H.
Qed.

(** ** main *)




(** ** cleanup *)

Lemma released_lookup (l : list addr) :
  forall (h : gmap addr block) (b : addr),
    foldl (fun h b => <[b := Freed]> h) h l !! b
    = if decide (b ∈ l) then Some Freed else h !! b.
Proof.
  induction l as [|x l IH]; intros h b; cbn [foldl].
  - rewrite decide_False by apply not_elem_of_nil. reflexivity.
  - rewrite IH. destruct (decide (b ∈ l)) as [Hin|Hnin].
    + rewrite decide_True by (apply elem_of_cons; right; exact Hin). reflexivity.
    + destruct (decide (b = x)) as [->|Hne].
      * rewrite decide_True by (apply elem_of_cons; left; reflexivity).
        apply lookup_insert_eq.
      * rewrite decide_False by (rewrite elem_of_cons; tauto).
        apply lookup_insert_ne. congruence.
Qed.

Ltac heap_step :=
  first
    [ rewrite lookup_insert_eq
    | rewrite lookup_insert_ne by congruence
    | match goal with
      | H : ?h !! ?x = Some Live |- context [?h !! ?x] => rewrite H
      end ];
  cbn [heap ctx ctx_mem url options fs].

(** One call of [cleanup] on a context whose blocks are live and distinct
    releases each of them and changes nothing else. *)
Lemma cleanup_result (st : state) :
  NoDup (owned_blocks st) ->
  (forall b, In b (owned_blocks st) -> heap st !! b = Some Live) ->
  ctx st <> None ->
  cleanup st = Ok tt (released st).
Proof.
  intros Hnd Hlive Hctx.
  destruct st as [h b c m o pin out]. destruct c as [p|]; [|contradiction].
  destruct m as [ac av cs f op u sh].
  unfold released, owned_blocks in *. cbn [ctx ctx_mem url options fs heap] in *.
  destruct u as [u|], op as [op|], f as [f|]; simpl in Hnd, Hlive;
    repeat match goal with
      | H : NoDup (_ :: _) |- _ =>
          apply NoDup_cons in H; destruct H as [? H]
      | H : _ ∉ _ :: _ |- _ =>
          apply not_elem_of_cons in H; destruct H as [? ?]
      end;
    repeat match goal with
      | x : addr |- _ =>
          lazymatch goal with
          | H : h !! x = Some Live |- _ => fail
          | _ => assert (h !! x = Some Live) by (apply Hlive; tauto)
          end
      end;
    cbv [cleanup bind get_ctx check_live free gluster_url_free glfs_fini
         free_xlator_options get_options ret];
    cbn [heap ctx ctx_mem url options fs];
    repeat heap_step; reflexivity.
Qed.

Lemma get_ctx_Ok (st : state) (c : cli_context) (st' : state) :
  get_ctx st = Ok c st' -> st' = st /\ ctx_live st.
Proof.
  unfold get_ctx, check_live, ctx_live.
  destruct (ctx st) as [p|]; [|discriminate].
  destruct (heap st !! p) as [[|]|] eqn:Hp; try discriminate.
  intros [= _ <-]. split; [reflexivity|]. exists p. split; [reflexivity | exact Hp].
Qed.

Lemma free_Ok (p : option addr) (st st' : state) :
  free p st = Ok tt st' ->
  ctx st' = ctx st
  /\ match p with
     | Some a => heap st' !! a = Some Freed
     | None => True
     end.
Proof.
  unfold free. destruct p as [a|].
  - destruct (heap st !! a) as [[|]|]; try discriminate.
    intros [= <-]. split; [reflexivity|]. cbn [heap]. apply lookup_insert_eq.
  - intros [= <-]. split; [reflexivity | exact I].
Qed.

(** A call of [cleanup] that returns has freed the context, and left the
    pointer to it in place. *)
Lemma cleanup_frees_ctx (st st' : state) :
  cleanup st = Ok tt st' ->
  exists p, ctx st' = Some p /\ heap st' !! p = Some Freed.
Proof.
  intros H. unfold cleanup in H. do 6 bind_inv H.
  match goal with
  | Hg : get_ctx ?s2 = Ok ?c ?s3, Hf : _ ?s3 = Ok ?u ?s4,
    H : free (ctx ?s4) ?s4 = _ |- _ =>
      apply get_ctx_Ok in Hg; destruct Hg as [-> (p & Hp & _)];
      assert (Hctx : ctx s4 = Some p);
      [ destruct (fs c) as [f|];
        [ destruct u; apply free_Ok in Hf; destruct Hf as [Hf _];
          rewrite Hf; exact Hp
        | injection Hf as _ <-; exact Hp ]
      | ]
  end.
  rewrite Hctx in H. apply free_Ok in H. destruct H as [Hc Hfreed].
  exists p. split; [rewrite Hc; exact Hctx | exact Hfreed].
Qed.

(** After a call of [cleanup] that returned, a second call, and so an
    interrupt, starts by reading the freed context. *)
Lemma cleanup_twice (st st' : state) :
  cleanup st = Ok tt st' ->
  cleanup st' = Undefined UseAfterFree
  /\ sig_handler SIGINT st' = Undefined UseAfterFree.
Proof.
  intros H. destruct (cleanup_frees_ctx st st' H) as (p & Hp & Hfreed).
  assert (Hc : cleanup st' = Undefined UseAfterFree).
  { unfold cleanup, bind, get_ctx, check_live. rewrite Hp, Hfreed.
    reflexivity. }
  split; [exact Hc|].
  unfold sig_handler. change (SIGINT =? SIGINT) with true. cbv iota.
  unfold bind. rewrite Hc. reflexivity.
Qed.

(** [main] returns only through [cleanup]. *)
Lemma main_returns_after_cleanup (ext : externals) (args : list string)
    (ctx_ok options_ok : bool) (stdin : list input_line)
    (s0 : state) (r : Z) (s' : state) :
  main ext args ctx_ok options_ok stdin s0 = Ok r s' ->
  exists r0 s1,
    cleanup s1 = Ok tt s' /\ r = (if r0 =? -1 then EXIT_FAILURE else r0).
Proof.
  intros H. unfold main in H. cbv zeta in H.
  destruct (get_cmd (basename (hd "" args))) as [c|];
    repeat (first
              [ bind_inv H
              | match type of H with
                | (let '(_, _) := ?a in _) _ = _ => destruct a
                end ]);
    match goal with
    | Hc : cleanup ?s1 = Ok ?u ?s2 |- _ =>
        destruct u; injection H as <- <-;
        eexists _, s1; split; [exact Hc | reflexivity]
    end.
Qed.

(** C1, as the code has it: called once on a context whose blocks are
    live and distinct, [cleanup] releases the URL, the options, the
    connection and the context, each once, and leaves other blocks alone.
    It resets no pointer and frees the context last, so the released
    context still names the released blocks and a second call is not a
    no-op: it starts by reading the freed context.  The interrupt handler
    runs this same routine and then leaves the process; delivered after a
    [cleanup] it is that second call.  [main] returns only through
    [cleanup], so an interrupt after the return of [main] reads the freed
    context as well. *)
Theorem cleanup_releases_each_block_once (st : state) :
  NoDup (owned_blocks st) ->
  (forall b, In b (owned_blocks st) -> heap st !! b = Some Live) ->
  ctx st <> None ->
  cleanup st = Ok tt (released st)
  /\ (forall b, In b (owned_blocks st) -> heap (released st) !! b = Some Freed)
  /\ (forall b, ~ In b (owned_blocks st) ->
        heap (released st) !! b = heap st !! b)
  /\ ctx (released st) = ctx st
  /\ ctx_mem (released st) = ctx_mem st
  /\ cleanup (released st) = Undefined UseAfterFree
  /\ sig_handler SIGINT st = Exit EXIT_SUCCESS (released st)
  /\ sig_handler SIGINT (released st) = Undefined UseAfterFree
  /\ (forall s s',
        cleanup s = Ok tt s' ->
        cleanup s' = Undefined UseAfterFree
        /\ sig_handler SIGINT s' = Undefined UseAfterFree)
  /\ (forall ext args ctx_ok options_ok stdin s0 r s',
        main ext args ctx_ok options_ok stdin s0 = Ok r s' ->
        (exists r0 s1,
            cleanup s1 = Ok tt s'
            /\ r = (if r0 =? -1 then EXIT_FAILURE else r0))
        /\ sig_handler SIGINT s' = Undefined UseAfterFree).
Proof.
  intros Hnd Hlive Hctx.
  pose proof (cleanup_result st Hnd Hlive Hctx) as Hc.
  assert (Hin : forall b, In b (owned_blocks st) ->
                          heap (released st) !! b = Some Freed).
  { intros b Hb. cbn [released heap]. rewrite released_lookup.
    rewrite decide_True by (apply list_elem_of_In; exact Hb). reflexivity. }
  split; [exact Hc|]. split; [exact Hin|].
  split.
  { intros b Hb. cbn [released heap]. rewrite released_lookup.
    rewrite decide_False by (rewrite list_elem_of_In; exact Hb). reflexivity. }
  split; [reflexivity|]. split; [reflexivity|].
  split; [exact (proj1 (cleanup_twice _ _ Hc))|].
  split.
  { unfold sig_handler. change (SIGINT =? SIGINT) with true. cbv iota.
    unfold bind. rewrite Hc. reflexivity. }
  split; [exact (proj2 (cleanup_twice _ _ Hc))|].
  split; [exact cleanup_twice|].
  intros ext args ctx_ok options_ok stdin s0 r s' Hmain.
  destruct (main_returns_after_cleanup _ _ _ _ _ _ _ _ Hmain)
    as (r0 & s1 & Hcl & Hr).
  split; [exists r0, s1; split; assumption|].
  exact (proj2 (cleanup_twice _ _ Hcl)).
Qed.

Lemma cleanup_releases_each_block_once_witness :
  NoDup (owned_blocks connected_state)
  /\ (forall b, In b (owned_blocks connected_state) ->
        heap connected_state !! b = Some Live)
  /\ cleanup connected_state = Ok tt (released connected_state)
  /\ cleanup (released connected_state) = Undefined UseAfterFree
  /\ sig_handler SIGINT (released connected_state) = Undefined UseAfterFree.
Proof.
  assert (Hnd : NoDup (owned_blocks connected_state)).
  { apply (bool_decide_unpack (NoDup (owned_blocks connected_state))).
    vm_compute. exact I. }
  assert (Hlive : forall b, In b (owned_blocks connected_state) ->
                            heap connected_state !! b = Some Live).
  { intros b Hb. simpl in Hb.
    repeat (destruct Hb as [<-|Hb]; [reflexivity|]). contradiction. }
  assert (Hctx : ctx connected_state <> None) by discriminate.
  destruct (cleanup_releases_each_block_once connected_state Hnd Hlive Hctx)
    as (Hc & _ & _ & _ & _ & Hagain & _ & Hlate & _).
  repeat split; assumption.
Defined.

(** C1 as stated fails: on the state in which the shell starts, a second
    [cleanup] is undefined, the first one is not. *)
Lemma cleanup_is_not_idempotent :
  ~ (forall s, (let* _ := cleanup in cleanup) s = cleanup s).
Proof.
  intros H. specialize (H ready_state). vm_compute in H. discriminate H.
Qed.

(** ** parse_options *)

Lemma optstring_lookup (c : ascii) :
  Ascii.eqb c ":" = false ->
  short_lookup c (chars optstring) <> Some false.
Proof.
  intros Hc. unfold optstring. cbn [chars list_ascii_of_string short_lookup].
  destruct (Ascii.eqb "o" c).
  - change (Ascii.eqb ":" ":") with true. discriminate.
  - rewrite Ascii.eqb_sym, Hc. discriminate.
Qed.

Lemma skip_nonoptions_length (args : list string) :
  (length (snd (skip_nonoptions args)) <= length args)%nat.
Proof.
  induction args as [|a rest IH]; [reflexivity|].
  cbn [skip_nonoptions]. destruct (is_nonoption a); [|reflexivity].
  destruct (skip_nonoptions rest) as [passed others]. cbn [snd length] in *. lia.
Qed.

(** Every option that [scan_element] returns uses up at least one element
    of the argument vector. *)
Lemma scan_element_shorter (a : string) (rest : list string) :
  match scan_element a rest with
  | (GetoptOption _ _ _, _, pending) => (length pending <= length rest)%nat
  | _ => True
  end.
Proof.
  unfold scan_element.
  destruct a as [|c0 [|c more]]; try exact I.
  destruct (Ascii.eqb c "-").
  - destruct more as [|m0 more]; [exact I|].
    destruct (split_eq (String m0 more)) as [nm value].
    destruct (long_lookup nm) as [i o| |]; try exact I.
    destruct value as [v|], (lo_has_arg o); try exact I; try reflexivity.
    destruct rest as [|v rest']; [exact I|]. cbn [length]. lia.
  - assert (Hl : Ascii.eqb c ":" = false ->
                 short_lookup c (chars optstring) <> Some false)
      by apply optstring_lookup.
    destruct more as [|m0 more].
    + destruct (Ascii.eqb c ":"); [exact I|]. cbn [orb].
      destruct (Ascii.eqb c ";"); [exact I|].
      specialize (Hl eq_refl).
      destruct (short_lookup c (chars optstring)) as [[|]|];
        [|contradiction|exact I].
      destruct rest as [|v rest']; [exact I|]. cbn [length]. lia.
    + destruct (Ascii.eqb c ":"); [exact I|]. cbn [orb].
      destruct (Ascii.eqb c ";"); [exact I|].
      specialize (Hl eq_refl).
      destruct (short_lookup c (chars optstring)) as [[|]|];
        [|contradiction|exact I].
      reflexivity.
Qed.

Lemma getopt_long_shorter (args : list string) :
  match go_result (getopt_long args) with
  | GetoptOption _ _ _ =>
      (length (go_left (getopt_long args)) < length args)%nat
  | _ => True
  end.
Proof.
  unfold getopt_long. pose proof (skip_nonoptions_length args) as Hs.
  destruct (skip_nonoptions args) as [passed others]. cbn [snd] in Hs.
  destruct others as [|a rest]; [exact I|].
  pose proof (scan_element_shorter a rest) as He.
  destruct (scan_element a rest) as [[r used] pending].
  cbn [go_result go_left]. destruct r; try exact I. cbn [length] in Hs. lia.
Qed.

(** The loop model does not depend on its fuel once there is more of it
    than arguments. *)
Lemma parse_options_loop_fuel (ext : externals) (argv0 : string) (n : nat) :
  forall (m : nat) (scanned held recent pending : list string)
         (option_index : Z) (st : state),
    (length pending < n)%nat -> (length pending < m)%nat ->
    parse_options_loop ext n argv0 scanned held recent pending option_index st
    = parse_options_loop ext m argv0 scanned held recent pending option_index
        st.
Proof.
  induction n as [|n IH]; intros m scanned held recent pending oi st Hn Hm;
    [lia|].
  destruct m as [|m]; [lia|].
  cbn [parse_options_loop]. unfold bind.
  destruct (exchange argv0 scanned held recent pending st) as [[] st1| |];
    try reflexivity.
  pose proof (getopt_long_shorter pending) as Hs.
  destruct (go_result (getopt_long pending)) as [|opt optarg longindex|];
    try reflexivity.
  match goal with
  | |- match ?x with _ => _ end = _ => destruct x; try reflexivity
  end.
  apply IH; lia.
Qed.

(** C5 fails on the code.  [parse_options] decides whether to connect by
    [argc - option_index >= 2], where [option_index] is the position in
    [long_options] of the last long option seen, not the number of
    arguments scanned.  With the long form [--xlator-option=a.b=c] and a
    URL the test is [3 - 3 >= 2]: the option is stored, but neither
    [cli_connect] nor [apply_xlator_options] is called and the shell starts
    unconnected, whatever the routines of the other modules do.  The short
    form [-o a.b=c] with the same URL connects. *)
Theorem long_xlator_option_skips_connect :
  (exists st',
     main logging_externals
       ["gfcli"; "--xlator-option=a.b=c"; "glfs://localhost/groot"]
       true true [] initial_state
     = Ok EXIT_FAILURE st'
     /\ xlator_options (options_mem st')
        = [{| xo_key := "a.b"; xo_value := "c" |}]
     /\ output st' = [Stdout "gfcli> "; Stdout "gfcli> "])
  /\ (exists st',
        main logging_externals
          ["gfcli"; "-o"; "a.b=c"; "glfs://localhost/groot"]
          true true [] initial_state
        = Ok EXIT_FAILURE st'
        /\ xlator_options (options_mem st')
           = [{| xo_key := "a.b"; xo_value := "c" |}]
        /\ output st' = [Stdout "cli_connect"; Stdout "apply_xlator_options";
                         Stdout "gfcli> "; Stdout "gfcli> "])
  /\ (forall ext o,
        parse_xlator_option ext "a.b=c" = Some o ->
        append_xlator_option ext [] o = Some [o] ->
        let st :=
          startup_state
            ["gfcli"; "--xlator-option=a.b=c"; "glfs://localhost/groot"] in
        parse_options ext st
        = Ok tt (mk_state (heap st) (brk st) (ctx st) (ctx_mem st)
                   (mk_options false [o]) (program_invocation_name st)
                   (output st))).
Proof.
  split; [|split].
  - eexists. split; [vm_compute; reflexivity | split; reflexivity].
  - eexists. split; [vm_compute; reflexivity | split; reflexivity].
  - intros ext o Hp Ha st.
    destruct ext as [rh pxo axo ap pr pn pv cr li]. cbn in Hp, Ha.
    subst st. vm_compute. rewrite Hp. vm_compute. rewrite Ha.
    vm_compute. reflexivity.
Qed.

Lemma long_xlator_option_skips_connect_witness :
  parse_xlator_option logging_externals "a.b=c"
  = Some {| xo_key := "a.b"; xo_value := "c" |}
  /\ exists st',
       parse_options logging_externals
         (startup_state
            ["gfcli"; "--xlator-option=a.b=c"; "glfs://localhost/groot"])
       = Ok tt st'
       /\ output st' = [].
Proof.
  split; [reflexivity|].
  destruct long_xlator_option_skips_connect as (_ & _ & H).
  eexists. split.
  - apply (H logging_externals {| xo_key := "a.b"; xo_value := "c" |});
      reflexivity.
  - reflexivity.
Defined.

(** * Further properties of the code *)

(** ** trim on a token that holds a character that is no white space *)

Lemma trim_loop_stops (pre : list ascii) (c : ascii) (ws : list ascii) :
  forall (suf : list ascii) (fuel : nat),
    isspace c = false ->
    forallb isspace ws = true ->
    (length ws < fuel)%nat ->
    Z.of_nat (length (pre ++ c :: ws ++ suf)) <= SIZE_MAX ->
    trim_loop fuel (pre ++ c :: ws ++ suf)
      (size_wrap (Z.of_nat (length (pre ++ c :: ws)) - 1))
    = Trimmed (pre ++ c :: repeat NUL (length ws) ++ suf).
Proof.
  induction ws as [|x ws IH] using rev_ind; intros suf fuel Hc Hws Hfuel Hlen.
  - destruct fuel as [|fuel]; [simpl in Hfuel; lia|].
    rewrite length_app in *. cbn [length app repeat] in *.
    replace (length pre + 1)%nat with (S (length pre)) by lia.
    rewrite size_wrap_pred by lia.
    cbn [trim_loop].
    assert (H0 : (0 <=? Z.of_nat (length pre)) = true) by (apply Z.leb_le; lia).
    rewrite H0, load_middle, Hc. reflexivity.
  - rewrite forallb_app in Hws. apply andb_true_iff in Hws as [Hws Hx].
    cbn [forallb] in Hx. rewrite andb_true_r in Hx.
    destruct fuel as [|fuel]; [lia|].
    rewrite length_app in Hfuel. cbn [length] in Hfuel.
    assert (Hbuf : pre ++ c :: (ws ++ [x]) ++ suf
                   = (pre ++ c :: ws) ++ x :: suf).
    { rewrite <- !app_assoc. reflexivity. }
    assert (Hidx : length (pre ++ c :: ws ++ [x]) = S (length (pre ++ c :: ws))).
    { rewrite !length_app. cbn [length]. rewrite length_app. cbn [length]. lia. }
    rewrite Hbuf in *. rewrite Hidx.
    rewrite size_wrap_pred
      by (rewrite length_app in Hlen; cbn [length] in Hlen; lia).
    cbn [trim_loop].
    assert (H0 : (0 <=? Z.of_nat (length (pre ++ c :: ws))) = true)
      by (apply Z.leb_le; lia).
    rewrite H0, load_middle, Hx, store_middle.
    replace ((pre ++ c :: ws) ++ NUL :: suf)
      with (pre ++ c :: ws ++ NUL :: suf)
      by (rewrite <- app_assoc; reflexivity).
    rewrite (IH (NUL :: suf) fuel Hc Hws).
    + rewrite length_app. cbn [length].
      replace (length ws + 1)%nat with (S (length ws)) by lia.
      rewrite <- repeat_shift. reflexivity.
    + lia.
    + rewrite !length_app in *. cbn [length] in *.
      rewrite !length_app in *. cbn [length] in *. lia.
Qed.

Lemma cstring_prefix (l rest : list ascii) :
  no_nul l = true -> cstring (l ++ NUL :: rest) = string_of_list_ascii l.
Proof.
  induction l as [|c l IH]; intros H; [reflexivity|].
  cbn [no_nul forallb] in H. apply andb_true_iff in H as [Hc Hl].
  apply negb_true_iff in Hc. cbn [app cstring string_of_list_ascii].
  rewrite Hc, (IH Hl). reflexivity.
Qed.

Lemma chars_string (l : list ascii) : chars (string_of_list_ascii l) = l.
Proof. apply list_ascii_of_string_of_list_ascii. Qed.

Lemma string_chars (s : string) : string_of_list_ascii (chars s) = s.
Proof. apply string_of_list_ascii_of_string. Qed.

(** The last character that is no white space, and the white space after
    it. *)
Lemma last_nonspace (l : list ascii) :
  forallb isspace l = false ->
  exists pre c ws,
    l = pre ++ c :: ws /\ isspace c = false /\ forallb isspace ws = true.
Proof.
  induction l as [|x l IH] using rev_ind; [discriminate|].
  rewrite forallb_app. cbn [forallb]. rewrite andb_true_r.
  destruct (isspace x) eqn:Hx.
  - rewrite andb_true_r. intros H.
    destruct (IH H) as (pre & c & ws & -> & Hc & Hws).
    exists pre, c, (ws ++ [x]). split; [|split].
    + rewrite <- app_assoc. reflexivity.
    + exact Hc.
    + rewrite forallb_app, Hws. cbn [forallb]. rewrite Hx. reflexivity.
  - intros _. exists l, x, []. repeat split; assumption.
Qed.

Lemma trim_chars (pre : list ascii) (c : ascii) (ws : list ascii) (token : string) :
  chars token = pre ++ c :: ws ->
  isspace c = false -> forallb isspace ws = true ->
  strlen token < SIZE_MAX ->
  trim token = Trimmed (pre ++ c :: repeat NUL (S (length ws))).
Proof.
  intros Hch Hc Hws Hlen. unfold trim, buffer_of, strlen in *.
  rewrite <- length_chars in *. rewrite Hch in *.
  replace ((pre ++ c :: ws) ++ [NUL]) with (pre ++ c :: ws ++ [NUL])
    by (rewrite <- app_assoc; reflexivity).
  rewrite trim_loop_stops; try assumption.
  - rewrite <- repeat_cons. reflexivity.
  - rewrite length_app. cbn [length]. lia.
  - rewrite length_app in *. cbn [length] in *.
    rewrite length_app. cbn [length]. lia.
Qed.

(** X1: a token whose last character that is no white space is [c] loses
    exactly the white space after [c]: [trim] overwrites it with NULs,
    leaves through [break] at [c], and the token then reads as the text up
    to and including [c]. *)
Theorem trim_strips_trailing_space (body ws : string) (c : ascii) :
  isspace c = false ->
  blank ws = true ->
  strlen (body +:+ String c ws) < SIZE_MAX ->
  trim (body +:+ String c ws)
  = Trimmed (chars body ++ c :: repeat NUL (S (String.length ws)))
  /\ (no_nul (chars body ++ [c]) = true ->
      cstring (chars body ++ c :: repeat NUL (S (String.length ws)))
      = body +:+ String c EmptyString).
Proof.
  intros Hc Hws Hlen. split.
  - rewrite <- length_chars. apply trim_chars; try assumption.
    rewrite chars_append. reflexivity.
  - intros Hnul.
    replace (chars body ++ c :: repeat NUL (S (String.length ws)))
      with ((chars body ++ [c]) ++ NUL :: repeat NUL (String.length ws))
      by (rewrite <- app_assoc; reflexivity).
    rewrite cstring_prefix by exact Hnul.
    rewrite <- (string_chars (body +:+ String c EmptyString)).
    rewrite chars_append. reflexivity.
Qed.

Lemma trim_strips_trailing_space_witness :
  trim ("gfls" +:+ String TAB nl)
  = Trimmed (chars "gfls" ++ [NUL; NUL; NUL])
  /\ cstring (chars "gfls" ++ [NUL; NUL; NUL]) = "gfls".
Proof.
  destruct (trim_strips_trailing_space "gfl" (String TAB nl) "s")
    as [Ht Hs]; [reflexivity | reflexivity | reflexivity |].
  split; [exact Ht | exact (Hs eq_refl)].
Defined.

(** X2: [trim] keeps its index inside the token exactly when the token
    holds a character that is no white space; on every other token,
    the empty one included, it ends up reading at index [SIZE_MAX]. *)
Theorem trim_in_bounds_iff (token : string) :
  strlen token < SIZE_MAX ->
  ((exists buf, trim token = Trimmed buf) <-> blank token = false)
  /\ ((exists buf, trim token = OutOfBounds SIZE_MAX buf) <-> blank token = true).
Proof.
  intros Hlen. destruct (blank token) eqn:Hb.
  - rewrite (trim_blank token Hb Hlen). split; split.
    + intros [buf H]. discriminate H.
    + discriminate.
    + reflexivity.
    + intros _. eexists. reflexivity.
  - destruct (last_nonspace (chars token) Hb) as (pre & c & ws & Hch & Hc & Hws).
    rewrite (trim_chars pre c ws token Hch Hc Hws Hlen). split; split.
    + reflexivity.
    + intros _. eexists. reflexivity.
    + intros [buf H]. discriminate H.
    + discriminate.
Qed.

Lemma trim_in_bounds_iff_witness :
  strlen ("ls" +:+ nl) < SIZE_MAX
  /\ exists buf, trim ("ls" +:+ nl) = Trimmed buf.
Proof.
  split; [reflexivity|].
  destruct (trim_in_bounds_iff ("ls" +:+ nl)) as [[_ H] _]; [reflexivity|].
  apply H. reflexivity.
Defined.

(** ** split_str on a last line that has no newline *)

Lemma space_fields_single (l f : list ascii) :
  space_fields l = [f] -> l <> [] -> f <> [].
Proof.
  destruct l as [|c l]; [contradiction|]. cbn [space_fields].
  destruct (Ascii.eqb c SPACE).
  - intros H _. injection H as _ H. exfalso. exact (space_fields_nonempty l H).
  - destruct (space_fields l) as [|f' fs']; intros H _;
      injection H as <-; discriminate.
Qed.

Lemma scan_fill_unterminated (body : list ascii) :
  no_newline body = true ->
  forall f fs,
    space_fields body = f :: fs ->
    fst (scan_arg body) = f
    /\ fill_args (length fs) (snd (scan_arg body))
       = Some (map string_of_list_ascii (drop_trailing_empty fs)).
Proof.
  induction body as [|c b IH]; intros Hnl f fs Hf.
  - injection Hf as <- <-. split; reflexivity.
  - cbn [no_newline forallb] in Hnl. apply andb_true_iff in Hnl as [Hc Hb].
    apply negb_true_iff in Hc.
    cbn [space_fields] in Hf. cbn [scan_arg]. rewrite Hc, orb_false_r.
    destruct (Ascii.eqb c SPACE) eqn:Hsp.
    + injection Hf as <- <-. split; [reflexivity|]. cbn [snd].
      destruct (space_fields b) as [|f' fs'] eqn:Hb'.
      { exfalso. exact (space_fields_nonempty b Hb'). }
      destruct (IH Hb f' fs' eq_refl) as [Hfst Hfill].
      cbn [length]. destruct b as [|x y].
      * injection Hb' as <- <-. reflexivity.
      * cbn [fill_args]. destruct (scan_arg (x :: y)) as [tok after].
        cbn [fst snd] in *. rewrite Hfill, Hfst.
        destruct fs' as [|f'' fs''].
        -- pose proof (space_fields_single (x :: y) f' Hb') as Hne.
           destruct f' as [|z f']; [exfalso; apply Hne; [discriminate|reflexivity]|].
           reflexivity.
        -- reflexivity.
    + destruct (space_fields b) as [|f' fs'] eqn:Hb'.
      { exfalso. exact (space_fields_nonempty b Hb'). }
      injection Hf as <- <-.
      destruct (IH Hb f' fs' eq_refl) as [Hfst Hfill].
      destruct (scan_arg b) as [tok after].
      cbn [fst snd] in *. subst tok. split; [reflexivity | exact Hfill].
Qed.

Lemma split_str_unterminated (line : string) :
  no_newline (chars line) = true ->
  count_spaces (chars line) + 1 <= INT_MAX ->
  split_str line true
  = Some (count_spaces (chars line) + 1,
          Argv (map string_of_list_ascii
                  (drop_trailing_empty (space_fields (chars line))))).
Proof.
  intros Hnl Hb. rewrite (split_str_unfold line true Hb). cbv zeta.
  destruct (space_fields (chars line)) as [|f fs] eqn:Hf.
  { exfalso. exact (space_fields_nonempty _ Hf). }
  pose proof (space_fields_length (chars line)) as Hlen.
  rewrite Hf in Hlen. cbn [length] in Hlen.
  replace (Z.to_nat (count_spaces (chars line) + 1)) with (S (length fs)) by lia.
  destruct (scan_fill_unterminated (chars line) Hnl f fs Hf) as [Hfst Hfill].
  destruct (chars line) as [|x y] eqn:Hl.
  - injection Hf as <- <-. reflexivity.
  - cbn [fill_args]. destruct (scan_arg (x :: y)) as [tok after].
    cbn [fst snd] in *. rewrite Hfill, Hfst.
    destruct fs as [|f' fs'].
    + pose proof (space_fields_single (x :: y) f Hf) as Hne.
      destruct f as [|z f]; [exfalso; apply Hne; [discriminate|reflexivity]|].
      reflexivity.
    + reflexivity.
Qed.

Lemma space_fields_app_space (l : list ascii) :
  space_fields (l ++ [SPACE]) = space_fields l ++ [[]].
Proof.
  induction l as [|c l IH]; [reflexivity|].
  cbn [app space_fields]. rewrite IH.
  destruct (Ascii.eqb c SPACE); [reflexivity|].
  destruct (space_fields l) as [|f fs] eqn:Hf.
  - exfalso. exact (space_fields_nonempty l Hf).
  - reflexivity.
Qed.

Lemma drop_trailing_empty_snoc (fs : list (list ascii)) :
  fs <> [] -> drop_trailing_empty (fs ++ [[]]) = fs.
Proof.
  induction fs as [|f fs IH]; [contradiction|]. intros _.
  destruct fs as [|f' fs']; [reflexivity|].
  change (drop_trailing_empty ((f :: f' :: fs') ++ [[]]))
    with (f :: drop_trailing_empty ((f' :: fs') ++ [[]])).
  rewrite IH by discriminate. reflexivity.
Qed.

(** X3: on a line without a newline (the last line of an input that does
    not end in one) and with fewer than [INT_MAX] - 1 spaces, so that the
    [int] count does not overflow, [split_str] fills the slots with the
    fields between the spaces, but stops at the terminator before an empty
    last field.  So for a line that ends in a space it returns a count one
    larger than the number of slots it has set: [argv[argc - 1]] is left
    as [malloc] returned it. *)
Theorem split_str_trailing_space (body : string) :
  no_newline (chars body) = true ->
  count_spaces (chars body) + 2 <= INT_MAX ->
  split_str body true
  = Some (count_spaces (chars body) + 1,
          Argv (map string_of_list_ascii
                  (drop_trailing_empty (space_fields (chars body)))))
  /\ split_str (body +:+ " ") true
     = Some (count_spaces (chars body) + 2,
             Argv (map string_of_list_ascii (space_fields (chars body))))
  /\ Z.of_nat (length (space_fields (chars body)))
     = count_spaces (chars body) + 1.
Proof.
  intros Hnl Hb. split; [apply split_str_unterminated; [exact Hnl | lia]|].
  split; [|apply space_fields_length].
  rewrite split_str_unterminated.
  - rewrite chars_append. change (chars " ") with [SPACE].
    rewrite count_spaces_app, space_fields_app_space.
    rewrite drop_trailing_empty_snoc by apply space_fields_nonempty.
    change (count_spaces [SPACE]) with 1.
    replace (count_spaces (chars body) + 1 + 1)
      with (count_spaces (chars body) + 2) by lia.
    reflexivity.
  - rewrite chars_append. unfold no_newline in *.
    rewrite forallb_app, Hnl. reflexivity.
  - rewrite chars_append, count_spaces_app.
    change (count_spaces (chars " ")) with 1. lia.
Qed.

Lemma split_str_trailing_space_witness :
  no_newline (chars "ls -l") = true
  /\ count_spaces (chars "ls -l") + 2 <= INT_MAX
  /\ split_str "ls -l" true = Some (2, Argv ["ls"; "-l"])
  /\ split_str "ls -l " true = Some (3, Argv ["ls"; "-l"]).
Proof.
  split; [reflexivity|]. split; [vm_compute; discriminate|].
  destruct (split_str_trailing_space "ls -l") as (H1 & H2 & _);
    [reflexivity | vm_compute; discriminate |].
  split; [exact H1 | exact H2].
Defined.

(** ** The command word of a line *)

Lemma isspace_SPACE (c : ascii) : isspace c = false -> Ascii.eqb c SPACE = false.
Proof.
  intros H. destruct (Ascii.eqb_spec c SPACE) as [->|]; [discriminate H | reflexivity].
Qed.

Lemma isspace_NEWLINE (c : ascii) : isspace c = false -> Ascii.eqb c NEWLINE = false.
Proof.
  intros H. destruct (Ascii.eqb_spec c NEWLINE) as [->|]; [discriminate H | reflexivity].
Qed.

Lemma is_delim_space (c : ascii) : is_delim " " c = Ascii.eqb c SPACE.
Proof. unfold is_delim. cbn. apply orb_false_r. Qed.

Lemma take_token_word (w rest : list ascii) :
  forallb (fun c => negb (isspace c)) w = true ->
  take_token " " (w ++ SPACE :: rest) = w.
Proof.
  induction w as [|c w IH]; intros H.
  - cbn [app take_token]. rewrite is_delim_space. reflexivity.
  - cbn [forallb] in H. apply andb_true_iff in H as [Hc Hw].
    apply negb_true_iff in Hc. cbn [app take_token].
    rewrite is_delim_space, (isspace_SPACE c Hc), (IH Hw). reflexivity.
Qed.

Lemma take_token_no_space (l : list ascii) :
  count_spaces l = 0 -> take_token " " l = l.
Proof.
  induction l as [|c l IH]; intros H; [reflexivity|].
  cbn [count_spaces] in H. pose proof (count_spaces_nonneg l).
  cbn [take_token]. rewrite is_delim_space.
  destruct (Ascii.eqb c SPACE); [lia|]. rewrite IH by lia. reflexivity.
Qed.

Lemma count_spaces_word (w : list ascii) :
  forallb (fun c => negb (isspace c)) w = true -> count_spaces w = 0.
Proof.
  induction w as [|c w IH]; intros H; [reflexivity|].
  cbn [forallb] in H. apply andb_true_iff in H as [Hc Hw].
  apply negb_true_iff in Hc. cbn [count_spaces].
  rewrite (isspace_SPACE c Hc), (IH Hw). reflexivity.
Qed.

Lemma no_newline_word (w : list ascii) :
  forallb (fun c => negb (isspace c)) w = true -> no_newline w = true.
Proof.
  induction w as [|c w IH]; intros H; [reflexivity|].
  cbn [forallb] in H. apply andb_true_iff in H as [Hc Hw].
  apply negb_true_iff in Hc. cbn [no_newline forallb].
  rewrite (isspace_NEWLINE c Hc). exact (IH Hw).
Qed.

Lemma space_fields_word (w rest : list ascii) :
  forallb (fun c => negb (isspace c)) w = true ->
  space_fields (w ++ SPACE :: rest) = w :: space_fields rest.
Proof.
  induction w as [|c w IH]; intros H; [reflexivity|].
  cbn [forallb] in H. apply andb_true_iff in H as [Hc Hw].
  apply negb_true_iff in Hc. cbn [app space_fields].
  rewrite (isspace_SPACE c Hc), (IH Hw). reflexivity.
Qed.

Lemma space_fields_no_space (w : list ascii) :
  count_spaces w = 0 -> space_fields w = [w].
Proof.
  induction w as [|c w IH]; intros H; [reflexivity|].
  cbn [count_spaces] in H. pose proof (count_spaces_nonneg w).
  cbn [space_fields]. destruct (Ascii.eqb c SPACE); [lia|].
  rewrite IH by lia. reflexivity.
Qed.

(** What the loop looks up for a line that starts with the word [w]:
    [strtok_r] cuts the word out (with the newline when nothing else
    follows), and [trim] gives the word back. *)
Lemma word_is_looked_up (w : string) :
  is_word w = true -> strlen w + 1 < SIZE_MAX ->
  (forall rest, strtok_r (w +:+ String SPACE rest) " " = Some w)
  /\ strtok_r (w +:+ nl) " " = Some (w +:+ nl)
  /\ (exists buf, trim w = Trimmed buf /\ cstring buf = w)
  /\ (exists buf, trim (w +:+ nl) = Trimmed buf /\ cstring buf = w)
  /\ starts_with_newline w = false.
Proof.
  unfold is_word. intros Hw Hlen.
  apply andb_true_iff in Hw as [Hw Hnul].
  apply andb_true_iff in Hw as [Hne Hsp].
  apply negb_true_iff in Hne.
  destruct w as [|c0 w0]; [discriminate|].
  assert (Hc0 : isspace c0 = false).
  { cbn [chars list_ascii_of_string forallb] in Hsp.
    apply andb_true_iff in Hsp as [H _]. apply negb_true_iff in H. exact H. }
  destruct (exists_last (l := chars (String c0 w0))) as (pre & c & Hch);
    [discriminate|].
  assert (Hc : isspace c = false).
  { rewrite Hch, forallb_app in Hsp. apply andb_true_iff in Hsp as [_ H].
    cbn [forallb] in H. rewrite andb_true_r in H. apply negb_true_iff in H.
    exact H. }
  split; [|split; [|split; [|split]]].
  - intros rest. unfold strtok_r. rewrite chars_append.
    change (chars (String SPACE rest)) with (SPACE :: chars rest).
    change (chars (String c0 w0)) with (c0 :: chars w0) in *.
    cbn [app skip_delims]. rewrite is_delim_space, (isspace_SPACE c0 Hc0).
    change (c0 :: chars w0 ++ SPACE :: chars rest)
      with ((c0 :: chars w0) ++ SPACE :: chars rest).
    rewrite take_token_word by exact Hsp.
    apply f_equal. apply (string_chars (String c0 w0)).
  - unfold strtok_r. rewrite chars_append.
    change (chars (String c0 w0)) with (c0 :: chars w0) in *.
    cbn [app skip_delims]. rewrite is_delim_space, (isspace_SPACE c0 Hc0).
    rewrite take_token_no_space.
    + apply f_equal.
      change (c0 :: chars w0 ++ chars nl) with (chars (String c0 w0) ++ chars nl).
      rewrite <- chars_append. apply string_chars.
    + change (c0 :: chars w0 ++ chars nl) with ((c0 :: chars w0) ++ chars nl).
      rewrite count_spaces_app, (count_spaces_word _ Hsp). reflexivity.
  - eexists. split.
    + apply (trim_chars pre c [] _); [rewrite Hch; reflexivity | exact Hc
                                     | reflexivity | unfold strlen in *; lia].
    + cbn [length repeat].
      replace (pre ++ c :: NUL :: []) with ((pre ++ [c]) ++ NUL :: [])
        by (rewrite <- app_assoc; reflexivity).
      rewrite <- Hch, cstring_prefix by exact Hnul. apply string_chars.
  - eexists. split.
    + apply (trim_chars pre c [NEWLINE] _).
      * rewrite chars_append, Hch, <- app_assoc. reflexivity.
      * exact Hc.
      * reflexivity.
      * unfold strlen in *. rewrite <- !length_chars in *.
        rewrite chars_append, length_app. change (length (chars nl)) with 1%nat.
        lia.
    + cbn [length repeat].
      replace (pre ++ c :: NUL :: [NUL]) with ((pre ++ [c]) ++ NUL :: [NUL])
        by (rewrite <- app_assoc; reflexivity).
      rewrite <- Hch, cstring_prefix by exact Hnul. apply string_chars.
  - cbn [starts_with_newline]. exact (isspace_NEWLINE c0 Hc0).
Qed.

Lemma string_app_assoc (a b c : string) : (a +:+ b) +:+ c = a +:+ (b +:+ c).
Proof.
  induction a as [|x a IH]; [reflexivity|].
  change (String x ((a +:+ b) +:+ c) = String x (a +:+ (b +:+ c))).
  rewrite IH. reflexivity.
Qed.

Lemma starts_with_newline_app (w rest : string) :
  w <> EmptyString -> starts_with_newline (w +:+ rest) = starts_with_newline w.
Proof. destruct w; [contradiction | reflexivity]. Qed.

Lemma is_word_nonempty (w : string) : is_word w = true -> w <> EmptyString.
Proof. intros H ->. discriminate H. Qed.

Lemma dispatch_split (ext : externals) (c : cmd) (l : input_line)
    (n : Z) (arg0 : string) (args : list string) :
  split_str (text l) (malloc_ok l) = Some (n, Argv (arg0 :: args)) ->
  0 < n ->
  dispatch ext c l = run_command ext c n (arg0 :: args).
Proof.
  intros Hs Hn. unfold dispatch, run_command. rewrite Hs.
  destruct (Z.eqb_spec n 0) as [|_]; [lia|]. reflexivity.
Qed.

(** X4: a line that starts with a word [w] is looked up under [w],
    whatever follows the first space, and a following newline is not part
    of the name.  When [w] is registered and the line has fewer than
    [INT_MAX] spaces, so that the [int] count of [split_str] does not
    overflow, its handler runs with [argv[0] = w], the further arguments
    being the fields between the spaces of the rest of the line,
    [ctx->argc] their number, and [program_invocation_name] set to [w];
    afterwards [ctx->argv] is NULL again.  When [w] is not registered the
    message naming [w] goes to stderr and nothing else happens. *)
Theorem shell_line_runs_command_word (ext : externals) (w args : string) :
  is_word w = true ->
  no_newline (chars args) = true ->
  strlen w + 1 < SIZE_MAX ->
  count_spaces (chars args) + 2 <= INT_MAX ->
  shell_line ext (typed (w +:+ String SPACE (args +:+ nl)))
  = match get_cmd w with
    | Some c =>
        run_command ext c (count_spaces (chars args) + 2)
          (w :: map string_of_list_ascii (space_fields (chars args)))
    | None => report_unknown w
    end
  /\ shell_line ext (typed (w +:+ nl))
     = match get_cmd w with
       | Some c => run_command ext c 1 [w]
       | None => report_unknown w
       end.
Proof.
  intros Hw Hnl Hlen Hb.
  destruct (word_is_looked_up w Hw Hlen)
    as (Htok & Htoknl & (b1 & Ht1 & Hs1) & (b2 & Ht2 & Hs2) & Hsnl).
  pose proof (is_word_nonempty w Hw) as Hne.
  assert (Hsp : forallb (fun c => negb (isspace c)) (chars w) = true).
  { unfold is_word in Hw. apply andb_true_iff in Hw as [Hw _].
    apply andb_true_iff in Hw as [_ Hw]. exact Hw. }
  assert (Hcount : count_spaces (chars (w +:+ String SPACE args))
                   = count_spaces (chars args) + 1).
  { rewrite chars_append.
    change (chars (String SPACE args)) with (SPACE :: chars args).
    rewrite count_spaces_app, (count_spaces_word _ Hsp).
    cbn [count_spaces]. change (Ascii.eqb SPACE SPACE) with true.
    cbv iota. lia. }
  pose proof (count_spaces_nonneg (chars args)) as Hnn.
  split.
  - unfold shell_line. cbn [typed text strdup_ok malloc_ok negb].
    rewrite (starts_with_newline_app w _ Hne), Hsnl, Htok, Ht1, Hs1.
    destruct (get_cmd w) as [c|]; [|reflexivity].
    apply dispatch_split.
    + cbn [typed text malloc_ok].
      replace (w +:+ String SPACE (args +:+ nl))
        with ((w +:+ String SPACE args) +:+ nl)
        by (rewrite string_app_assoc; reflexivity).
      rewrite split_str_fields.
      * rewrite Hcount. rewrite chars_append.
        change (chars (String SPACE args)) with (SPACE :: chars args).
        rewrite (space_fields_word _ _ Hsp).
        cbn [map]. rewrite string_chars.
        replace (count_spaces (chars args) + 1 + 1)
          with (count_spaces (chars args) + 2) by lia.
        reflexivity.
      * rewrite chars_append. unfold no_newline in *.
        rewrite forallb_app. fold (no_newline (chars w)).
        rewrite (no_newline_word _ Hsp).
        change (chars (String SPACE args)) with (SPACE :: chars args).
        cbn [forallb]. rewrite Hnl. reflexivity.
      * rewrite Hcount. lia.
    + lia.
  - unfold shell_line. cbn [typed text strdup_ok malloc_ok negb].
    rewrite (starts_with_newline_app w _ Hne), Hsnl, Htoknl, Ht2, Hs2.
    destruct (get_cmd w) as [c|]; [|reflexivity].
    apply dispatch_split; [|lia].
    cbn [typed text malloc_ok]. rewrite split_str_fields.
    + rewrite (count_spaces_word _ Hsp).
      rewrite (space_fields_no_space _ (count_spaces_word _ Hsp)).
      cbn [map]. rewrite string_chars. reflexivity.
    + exact (no_newline_word _ Hsp).
    + rewrite (count_spaces_word _ Hsp). vm_compute. discriminate.
Qed.

Lemma shell_line_runs_command_word_witness :
  is_word "gfcp" = true
  /\ count_spaces (chars "a  b") + 2 <= INT_MAX
  /\ shell_line logging_externals (typed ("gfcp" +:+ String SPACE ("a  b" +:+ nl)))
     = run_command logging_externals (mk_cmd (Some "gfcp") "cp" do_cp) 4
         ["gfcp"; "a"; ""; "b"].
Proof.
  split; [reflexivity|]. split; [vm_compute; discriminate|].
  destruct (shell_line_runs_command_word logging_externals "gfcp" "a  b")
    as [H _];
    [reflexivity | reflexivity | reflexivity | vm_compute; discriminate |].
  exact H.
Defined.

(** ** Lines for which the loop body goes wrong *)

Lemma skip_delims_spaces (l : list ascii) :
  skip_delims " " l = [] <-> forallb (fun c => Ascii.eqb c SPACE) l = true.
Proof.
  induction l as [|c l IH]; [split; reflexivity|].
  cbn [skip_delims forallb]. rewrite is_delim_space.
  destruct (Ascii.eqb c SPACE); [exact IH|].
  split; discriminate.
Qed.

Lemma strtok_r_none (line : string) :
  strtok_r line " " = None
  <-> forallb (fun c => Ascii.eqb c SPACE) (chars line) = true.
Proof.
  rewrite <- skip_delims_spaces. unfold strtok_r.
  destruct (skip_delims " " (chars line)); split;
    try reflexivity; discriminate.
Qed.

(** X5: [strtok_r] finds no token exactly in a line made of spaces only
    (the empty line included); the loop does not test for that and hands
    the NULL pointer to [trim], which starts with [strlen] of it.  No
    handler runs and nothing is printed. *)
Theorem spaces_only_line_passes_null (ext : externals) (l : input_line) :
  strdup_ok l = true ->
  (strtok_r (text l) " " = None
   <-> forallb (fun c => Ascii.eqb c SPACE) (chars (text l)) = true)
  /\ (forallb (fun c => Ascii.eqb c SPACE) (chars (text l)) = true ->
      shell_line ext l = undefined NullDeref).
Proof.
  intros Hdup. split; [apply strtok_r_none|]. intros Hsp.
  unfold shell_line. rewrite Hdup. cbn [negb].
  assert (Hnl : starts_with_newline (text l) = false).
  { destruct (text l) as [|c s]; [reflexivity|].
    cbn [chars list_ascii_of_string forallb] in Hsp.
    apply andb_true_iff in Hsp as [Hc _]. apply Ascii.eqb_eq in Hc. subst c.
    reflexivity. }
  rewrite Hnl. apply strtok_r_none in Hsp. rewrite Hsp. reflexivity.
Qed.

Lemma spaces_only_line_passes_null_witness :
  strdup_ok (typed "   ") = true
  /\ shell_line logging_externals (typed "   ") = undefined NullDeref.
Proof.
  split; [reflexivity|].
  destruct (spaces_only_line_passes_null logging_externals (typed "   "))
    as [_ H]; [reflexivity|].
  apply H. reflexivity.
Defined.

(** X6: [split_str] returns the count even when its [malloc] failed, and a
    count it returns is never 0 (the [int] either overflows, which is
    undefined, or ends at 1 or more), so the test [ctx->argc == 0] after
    the call never holds.  When the allocation fails for a line whose
    first token names a registered command, whatever follows the token,
    and the count does not overflow, [split_str] returns the count and
    leaves NULL in [ctx->argv], and the loop goes on to read
    [ctx->argv[0]] through the NULL pointer; the handler does not run. *)
Theorem split_str_failure_is_not_detected (ext : externals) (l : input_line)
    (token : string) (buf : list ascii) (c : cmd) (st : state) :
  ctx_live st ->
  strdup_ok l = true -> malloc_ok l = false ->
  starts_with_newline (text l) = false ->
  strtok_r (text l) " " = Some token ->
  trim token = Trimmed buf ->
  get_cmd (cstring buf) = Some c ->
  count_spaces (chars (text l)) + 1 <= INT_MAX ->
  (forall line ok n av, split_str line ok = Some (n, av) -> 0 < n)
  /\ split_str (text l) false
     = Some (count_spaces (chars (text l)) + 1, ArgvNull)
  /\ shell_line ext l st = Undefined NullDeref.
Proof.
  intros Hl Hdup Hm Hnl Htok Htrim Hc Hb.
  split; [exact split_str_positive|]. split.
  - rewrite (split_str_unfold (text l) false Hb). reflexivity.
  - unfold shell_line. rewrite Hnl, Hdup, Htok, Htrim, Hc. cbn [negb].
    apply dispatch_null_argv; assumption.
Qed.

Lemma split_str_failure_is_not_detected_witness :
  split_str ("cp a  b" +:+ nl) false = Some (4, ArgvNull)
  /\ shell_line logging_externals (mk_line ("cp a  b" +:+ nl) true false)
       ready_state
     = Undefined NullDeref.
Proof.
  destruct (split_str_failure_is_not_detected logging_externals
              (mk_line ("cp a  b" +:+ nl) true false) "cp" (buffer_of "cp")
              (mk_cmd (Some "gfcp") "cp" do_cp) ready_state)
    as (_ & H1 & H2);
    [exact ready_state_live | reflexivity | reflexivity | reflexivity
    | reflexivity | vm_compute; reflexivity | reflexivity
    | vm_compute; discriminate |].
  split; [exact H1 | exact H2].
Defined.

(** ** Leaving the loop for lack of memory *)




(** ** The interrupt handler and the start of main *)

(** X8: the handler acts on [SIGINT] only; every other signal is ignored.
    [main] installs it as its first statement, before the context is
    allocated: as long as the global [ctx] is NULL a [SIGINT] makes
    [cleanup] read through the NULL pointer. *)
Theorem sig_handler_before_context (sig : Z) (st : state) :
  (sig <> SIGINT -> sig_handler sig st = Ok tt st)
  /\ (ctx st = None -> sig_handler SIGINT st = Undefined NullDeref)
  /\ ctx initial_state = None.
Proof.
  split; [|split; [|reflexivity]].
  - intros H. unfold sig_handler.
    destruct (Z.eqb_spec sig SIGINT) as [|_]; [contradiction | reflexivity].
  - intros H. unfold sig_handler. change (SIGINT =? SIGINT) with true. cbv iota.
    unfold bind, cleanup, bind, get_ctx, check_live. rewrite H. reflexivity.
Qed.

Lemma sig_handler_before_context_witness :
  sig_handler 15 ready_state = Ok tt ready_state
  /\ sig_handler SIGINT initial_state = Undefined NullDeref.
Proof.
  split.
  - destruct (sig_handler_before_context 15 ready_state) as [H _].
    apply H. discriminate.
  - destruct (sig_handler_before_context SIGINT initial_state) as (_ & H & _).
    apply H. reflexivity.
Defined.

(** X9: when one of the two allocations of [main] fails, the process ends
    with [EXIT_FAILURE] after one message on stderr, under whatever name
    it was started: no handler runs, no option is parsed and no line is
    read.  When the second allocation fails the context is live at the
    exit; [cleanup] is not called. *)
Theorem main_allocation_failure (ext : externals) (args : list string)
    (options_ok : bool) (stdin : list input_line) :
  (exists st',
     main ext args false options_ok stdin initial_state = Exit EXIT_FAILURE st'
     /\ output st' = [Stderr "failed to initialize context"]
     /\ heap st' = ∅)
  /\ (exists st',
        main ext args true false stdin initial_state = Exit EXIT_FAILURE st'
        /\ output st' = [Stderr "failed to initialize options"]
        /\ ctx st' = Some 1%positive
        /\ heap st' !! 1%positive = Some Live).
Proof.
  split; eexists; (split; [reflexivity|]); repeat split; reflexivity.
Qed.

Lemma cleanup_preserves (st : state) :
  NoDup (owned_blocks st) ->
  (forall b, In b (owned_blocks st) -> heap st !! b = Some Live) ->
  ctx st <> None ->
  forall r : Z,
    (let* _ := cleanup in ret (if r =? -1 then EXIT_FAILURE else r)) st
    = Ok (if r =? -1 then EXIT_FAILURE else r) (released st).
Proof.
  intros Hnd Hlive Hctx r. unfold bind.
  rewrite (cleanup_result st Hnd Hlive Hctx). reflexivity.
Qed.

(** X10: started under a registered name or alias (the last component of
    [argv[0]]), [main] parses no option and reads no line: it runs that
    command's handler once, on the whole argument vector and with
    [in_shell] cleared, then [cleanup], and returns the handler's status,
    with -1 turned into [EXIT_FAILURE]. *)
Theorem main_runs_named_command (ext : externals) (args : list string)
    (c : cmd) (stdin : list input_line) (r : Z) (st1 : state) :
  get_cmd (basename (hd "" args)) = Some c ->
  call ext (execute c) (direct_state args) = Ok r st1 ->
  NoDup (owned_blocks st1) ->
  (forall b, In b (owned_blocks st1) -> heap st1 !! b = Some Live) ->
  ctx st1 <> None ->
  main ext args true true stdin initial_state
  = Ok (if r =? -1 then EXIT_FAILURE else r) (released st1).
Proof.
  intros Hc Hcall Hnd Hlive Hctx.
  assert (Hmain : main ext args true true stdin initial_state
                  = (let* r := call ext (execute c) in
                     let* _ := cleanup in
                     ret (if r =? -1 then EXIT_FAILURE else r))
                      (direct_state args)).
  { unfold main. cbv zeta. rewrite Hc. reflexivity. }
  rewrite Hmain. unfold bind at 1. rewrite Hcall.
  apply cleanup_preserves; assumption.
Qed.

Lemma main_runs_named_command_witness :
  get_cmd (basename (hd "" ["/usr/bin/gfmv/"; "glfs://host/vol/a"; "b"]))
  = Some (mk_cmd (Some "gfmv") "mv" not_implemented)
  /\ exists st',
       main logging_externals ["/usr/bin/gfmv/"; "glfs://host/vol/a"; "b"]
         true true [typed ("ls" +:+ nl)] initial_state
       = Ok EXIT_FAILURE st'
       /\ output st' = [Stdout "not_implemented"]
       /\ argv (ctx_mem st') = Argv ["/usr/bin/gfmv"; "glfs://host/vol/a"; "b"].
Proof.
  split; [reflexivity|]. eexists. split.
  - apply (main_runs_named_command logging_externals
             ["/usr/bin/gfmv/"; "glfs://host/vol/a"; "b"]
             (mk_cmd (Some "gfmv") "mv" not_implemented)
             [typed ("ls" +:+ nl)] (-1)
             (printed [Stdout "not_implemented"]
                (direct_state ["/usr/bin/gfmv/"; "glfs://host/vol/a"; "b"]))).
    + reflexivity.
    + reflexivity.
    + apply (bool_decide_unpack (NoDup _)). vm_compute. exact I.
    + intros b Hb. simpl in Hb.
      repeat (destruct Hb as [<-|Hb]; [reflexivity|]). contradiction.
    + discriminate.
  - split; reflexivity.
Defined.

(** ** parse_options *)

Lemma skip_nonoptions_all (args : list string) :
  forallb is_nonoption args = true -> skip_nonoptions args = (args, []).
Proof.
  induction args as [|a args IH]; intros H; [reflexivity|].
  cbn [forallb] in H. apply andb_true_iff in H as [Ha Hargs].
  cbn [skip_nonoptions]. rewrite Ha, (IH Hargs). reflexivity.
Qed.

Lemma getopt_long_nonoptions (args : list string) :
  forallb is_nonoption args = true ->
  getopt_long args = mk_call args GetoptEnd [] [].
Proof.
  intros H. unfold getopt_long. rewrite (skip_nonoptions_all args H).
  reflexivity.
Qed.

(** X11: when the arguments after the program name hold no option,
    [parse_options] changes nothing and calls nothing if there is none,
    and otherwise calls [cli_connect] and then [apply_xlator_options];
    a -1 from [cli_connect] ends the process with [EXIT_FAILURE]. *)
Theorem parse_options_without_options (ext : externals) (st : state)
    (a0 : string) (rest : list string) :
  ctx_live st ->
  argv (ctx_mem st) = Argv (a0 :: rest) ->
  argc (ctx_mem st) = Z.of_nat (length (a0 :: rest)) ->
  forallb is_nonoption rest = true ->
  parse_options ext st
  = match rest with
    | [] => Ok tt st
    | _ => connect_at_startup ext st
    end
  /\ (forall st1,
        rest <> [] -> call ext cli_connect st = Ok (-1) st1 ->
        parse_options ext st = Exit EXIT_FAILURE st1).
Proof.
  intros Hl Hav Hac Hno.
  assert (Hp : parse_options ext st
               = match rest with
                 | [] => Ok tt st
                 | _ => connect_at_startup ext st
                 end).
  { unfold parse_options. unfold bind at 1. rewrite (get_ctx_live st Hl), Hav.
    cbn [tail hd]. unfold bind at 1. cbn [length parse_options_loop].
    rewrite (getopt_long_nonoptions rest Hno).
    cbn [go_result go_used go_left go_passed exchange bind ret]. rewrite Hac.
    destruct rest as [|a1 rest]; [reflexivity|].
    assert (Hge : (Z.of_nat (length (a0 :: a1 :: rest)) - 0 >=? 2) = true).
    { cbn [length]. apply Z.geb_le. lia. }
    rewrite Hge. reflexivity. }
  split; [exact Hp|]. intros st1 Hne Hcall. rewrite Hp.
  destruct rest as [|a1 rest]; [contradiction|].
  unfold connect_at_startup, bind. rewrite Hcall. reflexivity.
Qed.

Lemma parse_options_without_options_witness :
  parse_options logging_externals (startup_state ["gfcli"])
  = Ok tt (startup_state ["gfcli"])
  /\ parse_options logging_externals
       (startup_state ["gfcli"; "glfs://localhost/groot"])
     = connect_at_startup logging_externals
         (startup_state ["gfcli"; "glfs://localhost/groot"]).
Proof.
  split.
  - destruct (parse_options_without_options logging_externals
                (startup_state ["gfcli"]) "gfcli" []) as [H _];
      [exists 1%positive; split; reflexivity
      | reflexivity | reflexivity | reflexivity |].
    exact H.
  - destruct (parse_options_without_options logging_externals
                (startup_state ["gfcli"; "glfs://localhost/groot"]) "gfcli"
                ["glfs://localhost/groot"]) as [H _];
      [exists 1%positive; split; reflexivity
      | reflexivity | reflexivity | reflexivity |].
    exact H.
Defined.









Lemma get_options_live (st : state) :
  options_live st -> get_options st = Ok (options_mem st) st.
Proof.
  intros [Hl (q & Hq & Hlq)]. unfold get_options, bind.
  rewrite (get_ctx_live st Hl). unfold check_live. rewrite Hq, Hlq. reflexivity.
Qed.

Lemma set_options_live (f : cli_options -> cli_options) (st : state) :
  options_live st ->
  set_options f st
  = Ok tt (mk_state (heap st) (brk st) (ctx st) (ctx_mem st)
             (f (options_mem st)) (program_invocation_name st) (output st)).
Proof.
  intros Hl. unfold set_options, bind. rewrite (get_options_live st Hl).
  reflexivity.
Qed.

Lemma length_short_options (vs : list string) :
  length (short_options vs) = (2 * length vs)%nat.
Proof. induction vs as [|v vs IH]; [reflexivity|]. cbn [short_options flat_map app length] in *. unfold short_options in IH. rewrite IH. lia. Qed.

(** The loop on a run of [-o] options followed by arguments that are no
    options: every value is parsed and appended, in the order given, and
    [option_index] stays 0. *)
Lemma exchange_no_held (argv0 : string) (scanned recent pending : list string) :
  exchange argv0 scanned [] recent pending = ret tt.
Proof. destruct recent; reflexivity. Qed.

Lemma parse_options_loop_short (ext : externals)
    (f : string -> xlator_option) (argv0 : string) (vs : list string) :
  forall (pos : list string) (fuel : nat) (scanned recent : list string)
         (st : state),
    (forall v, In v vs -> parse_xlator_option ext v = Some (f v)) ->
    (forall l o, append_xlator_option ext l o = Some (l ++ [o])) ->
    forallb is_nonoption pos = true ->
    options_live st ->
    (length (short_options vs ++ pos) < fuel)%nat ->
    parse_options_loop ext fuel argv0 scanned [] recent
      (short_options vs ++ pos) 0 st
    = Ok 0 (match vs with
            | [] => st
            | _ => with_xlator_options
                     (xlator_options (options_mem st) ++ map f vs) st
            end).
Proof.
  induction vs as [|v vs IH];
    intros pos fuel scanned recent st Hp Ha Hpos Hl Hfuel.
  - destruct fuel as [|fuel]; [lia|]. cbn [short_options flat_map app].
    cbn [parse_options_loop]. rewrite exchange_no_held.
    rewrite (getopt_long_nonoptions pos Hpos).
    reflexivity.
  - destruct fuel as [|fuel]; [lia|].
    change (short_options (v :: vs) ++ pos)
      with ("-o" :: v :: short_options vs ++ pos) in *.
    cbn [length] in Hfuel.
    cbn [parse_options_loop]. rewrite exchange_no_held.
    change (getopt_long ("-o" :: v :: short_options vs ++ pos))
      with (mk_call [] (GetoptOption "o" (Some v) None) ["-o"; v]
              (short_options vs ++ pos)).
    unfold bind at 1. cbn [ret go_result go_passed go_used go_left app].
    cbv iota beta. change (Ascii.eqb "o" "d") with false.
    change (Ascii.eqb "o" "o") with true. cbv iota.
    unfold bind at 1. unfold add_xlator_option.
    rewrite (Hp v (or_introl eq_refl)). unfold bind at 1. cbn [ret].
    unfold bind at 1. rewrite (get_options_live st Hl), Ha.
    rewrite (set_options_live _ st Hl). cbn [debug xlator_options].
    rewrite IH.
    + f_equal. destruct vs as [|v' vs]; unfold with_xlator_options;
        cbn [options_mem xlator_options debug heap brk ctx ctx_mem
             program_invocation_name output map];
        [reflexivity|].
      rewrite <- app_assoc. reflexivity.
    + intros v' Hv'. apply Hp. right. exact Hv'.
    + exact Ha.
    + exact Hpos.
    + exact Hl.
    + lia.
Qed.

(** X14: for arguments made of [-o VALUE] pairs followed by arguments that
    are no options, [parse_options] appends the parsed values to the
    translator options in the order given (each value is taken as it
    stands) and then connects.  With at least one [-o] it connects even
    when no URL follows. *)
Theorem parse_options_short_options (ext : externals)
    (f : string -> xlator_option) (st : state) (a0 v : string)
    (vs pos : list string) :
  (forall x, In x (v :: vs) -> parse_xlator_option ext x = Some (f x)) ->
  (forall l o, append_xlator_option ext l o = Some (l ++ [o])) ->
  forallb is_nonoption pos = true ->
  options_live st ->
  argv (ctx_mem st) = Argv (a0 :: short_options (v :: vs) ++ pos) ->
  argc (ctx_mem st)
  = Z.of_nat (length (a0 :: short_options (v :: vs) ++ pos)) ->
  parse_options ext st
  = connect_at_startup ext
      (with_xlator_options
         (xlator_options (options_mem st) ++ map f (v :: vs)) st).
Proof.
  intros Hp Ha Hpos Hl Hav Hac. unfold parse_options. unfold bind at 1.
  rewrite (get_ctx_live st (proj1 Hl)), Hav. cbn [tail hd]. unfold bind at 1.
  rewrite (parse_options_loop_short ext f a0 (v :: vs) pos _ [] [] st
             Hp Ha Hpos Hl)
    by (cbn [length]; lia).
  rewrite Hac.
  assert (Hge : (Z.of_nat (length (a0 :: short_options (v :: vs) ++ pos)) - 0
                 >=? 2) = true).
  { apply Z.geb_le. cbn [length]. rewrite length_app, length_short_options.
    cbn [length]. lia. }
  rewrite Hge. reflexivity.
Qed.

Lemma parse_options_short_options_witness :
  exists st',
    parse_options logging_externals
      (startup_state ["gfcli"; "-o"; "a.b=c"; "-o"; "-d.e=f"])
    = Ok tt st'
    /\ xlator_options (options_mem st')
       = [{| xo_key := "a.b"; xo_value := "c" |};
          {| xo_key := "-d.e"; xo_value := "f" |}]
    /\ output st' = [Stdout "cli_connect"; Stdout "apply_xlator_options"].
Proof.
  eexists. split.
  - rewrite (parse_options_short_options logging_externals
               (fun s => {| xo_key := fst (split_eq s);
                            xo_value := match snd (split_eq s) with
                                        | Some x => x
                                        | None => EmptyString
                                        end |})
               (startup_state ["gfcli"; "-o"; "a.b=c"; "-o"; "-d.e=f"])
               "gfcli" "a.b=c" ["-d.e=f"] []).
    + vm_compute. reflexivity.
    + intros x Hx. simpl in Hx.
      destruct Hx as [<-|[<-|[]]]; reflexivity.
    + reflexivity.
    + reflexivity.
    + split; [exists 1%positive; split; reflexivity|].
      exists 2%positive. split; reflexivity.
    + reflexivity.
    + reflexivity.
  - split; reflexivity.
Defined.

(** ** Empty lines *)

Lemma printed_app (es fs : list out_event) (st : state) :
  printed fs (printed es st) = printed (es ++ fs) st.
Proof. unfold printed. cbn. rewrite <- app_assoc. reflexivity. Qed.

(** X15: on an input of [n] lines that each begin with a newline,
    [start_shell] prints the prompt [n + 1] times, with the connection
    string when there is one, changes nothing else, and returns -1 at the
    end of the input, whether or not memory could be had for the lines. *)
Theorem start_shell_empty_lines (ext : externals) (lines : list input_line) :
  forall st : state,
    ctx_live st ->
    forallb (fun l => starts_with_newline (text l)) lines = true ->
    start_shell ext lines st
    = Ok (-1, [])
        (printed
           (repeat (Stdout (prompt_text (conn_str (ctx_mem st))))
              (S (length lines)))
           st).
Proof.
  induction lines as [|l lines IH]; intros st Hl Hnl.
  - cbn [start_shell]. unfold bind. rewrite (get_ctx_live st Hl). reflexivity.
  - cbn [forallb] in Hnl. apply andb_true_iff in Hnl as [Hn Hnl].
    cbn [start_shell]. unfold bind at 1. rewrite (get_ctx_live st Hl).
    unfold bind at 1. cbn [print]. unfold bind at 1.
    unfold shell_line. rewrite Hn. cbn [ret].
    rewrite IH; [|exact Hl|exact Hnl].
    cbn [ctx_mem length]. f_equal.
    change (S (S (length lines))) with (1 + S (length lines))%nat.
    rewrite repeat_app. rewrite <- printed_app. reflexivity.
Qed.

Lemma start_shell_empty_lines_witness :
  start_shell logging_externals
    [typed nl; mk_line nl false false] connected_state
  = Ok (-1, [])
      (printed
         [Stdout "gfcli glfs://localhost/groot> ";
          Stdout "gfcli glfs://localhost/groot> ";
          Stdout "gfcli glfs://localhost/groot> "]
         connected_state).
Proof.
  apply (start_shell_empty_lines logging_externals
           [typed nl; mk_line nl false false] connected_state).
  - exists 1%positive. split; reflexivity.
  - reflexivity.
Defined.

(** ** White space other than spaces after the command word *)

Lemma count_spaces_zero_forall (l : list ascii) :
  forallb (fun c => negb (Ascii.eqb c SPACE)) l = true -> count_spaces l = 0.
Proof.
  induction l as [|c l IH]; intros H; [reflexivity|].
  cbn [forallb] in H. apply andb_true_iff in H as [Hc Hl].
  apply negb_true_iff in Hc. cbn [count_spaces]. rewrite Hc, (IH Hl). reflexivity.
Qed.

(** X16: [trim] is applied to the copy of the line that is looked up, not
    to the line that is split.  When the command word [w] is followed,
    before the newline, by white space that is neither space nor newline
    (a tab, or the carriage return of a CRLF line end), the command is
    still looked up under [w], but [argv[0]] and
    [program_invocation_name] keep that white space. *)
Theorem trailing_blanks_stay_in_argv (ext : externals) (w ws : string) :
  is_word w = true ->
  blank ws = true ->
  forallb (fun c => negb (Ascii.eqb c SPACE)) (chars ws) = true ->
  no_newline (chars ws) = true ->
  strlen (w +:+ ws +:+ nl) < SIZE_MAX ->
  shell_line ext (typed (w +:+ ws +:+ nl))
  = match get_cmd w with
    | Some c => run_command ext c 1 [w +:+ ws]
    | None => report_unknown w
    end.
Proof.
  intros Hw Hws Hnsp Hnnl Hlen.
  pose proof (is_word_nonempty w Hw) as Hne.
  unfold is_word in Hw. apply andb_true_iff in Hw as [Hw Hnul].
  apply andb_true_iff in Hw as [_ Hsp].
  destruct (exists_last (l := chars w)) as (pre & c & Hch).
  { intros H. apply Hne. rewrite <- (string_chars w), H. reflexivity. }
  assert (Hc : isspace c = false).
  { rewrite Hch, forallb_app in Hsp. apply andb_true_iff in Hsp as [_ H].
    cbn [forallb] in H. rewrite andb_true_r in H. apply negb_true_iff in H.
    exact H. }
  assert (Hline : chars (w +:+ ws +:+ nl) = chars w ++ chars ws ++ [NEWLINE]).
  { rewrite !chars_append. reflexivity. }
  assert (Hcount : count_spaces (chars w ++ chars ws) = 0).
  { rewrite count_spaces_app, (count_spaces_word _ Hsp),
      (count_spaces_zero_forall _ Hnsp). reflexivity. }
  assert (Hsnl : starts_with_newline (w +:+ ws +:+ nl) = false).
  { rewrite (starts_with_newline_app w _ Hne).
    destruct w as [|c0 w0]; [contradiction|].
    cbn [chars list_ascii_of_string forallb] in Hsp.
    apply andb_true_iff in Hsp as [H _]. apply negb_true_iff in H.
    exact (isspace_NEWLINE c0 H). }
  assert (Htok : strtok_r (w +:+ ws +:+ nl) " " = Some (w +:+ ws +:+ nl)).
  { unfold strtok_r. rewrite Hline.
    assert (Hz : count_spaces (chars w ++ chars ws ++ [NEWLINE]) = 0).
    { rewrite app_assoc, count_spaces_app, Hcount. reflexivity. }
    destruct (chars w) as [|c0 l0] eqn:Hw0.
    { destruct pre; discriminate Hch. }
    cbn [app skip_delims]. rewrite is_delim_space.
    cbn [forallb] in Hsp. apply andb_true_iff in Hsp as [H0 _].
    apply negb_true_iff in H0. rewrite (isspace_SPACE c0 H0).
    rewrite take_token_no_space by exact Hz.
    apply f_equal. cbn [app] in Hline. rewrite <- Hline. apply string_chars. }
  assert (Htrim : exists buf, trim (w +:+ ws +:+ nl) = Trimmed buf
                              /\ cstring buf = w).
  { eexists. split.
    - apply (trim_chars pre c (chars ws ++ [NEWLINE])).
      + rewrite Hline, Hch, <- app_assoc. reflexivity.
      + exact Hc.
      + rewrite forallb_app. unfold blank in Hws. rewrite Hws. reflexivity.
      + exact Hlen.
    - replace (pre ++ c :: repeat NUL (S (length (chars ws ++ [NEWLINE]))))
        with ((pre ++ [c]) ++ NUL :: repeat NUL (length (chars ws ++ [NEWLINE])))
        by (rewrite <- app_assoc; reflexivity).
      rewrite <- Hch, cstring_prefix by exact Hnul. apply string_chars. }
  destruct Htrim as (buf & Ht & Hs).
  unfold shell_line. cbn [typed text strdup_ok malloc_ok negb].
  rewrite Hsnl, Htok, Ht, Hs.
  destruct (get_cmd w) as [cm|]; [|reflexivity].
  apply dispatch_split; [|lia].
  cbn [typed text malloc_ok].
  replace (w +:+ ws +:+ nl) with ((w +:+ ws) +:+ nl)
    by apply string_app_assoc.
  rewrite split_str_fields.
  - rewrite chars_append, Hcount, (space_fields_no_space _ Hcount).
    cbn [map]. rewrite <- chars_append, string_chars. reflexivity.
  - rewrite chars_append. unfold no_newline in *. rewrite forallb_app.
    fold (no_newline (chars w)). rewrite (no_newline_word _ Hsp). exact Hnnl.
  - rewrite chars_append, Hcount. vm_compute. discriminate.
Qed.

Lemma trailing_blanks_stay_in_argv_witness :
  shell_line logging_externals
    (typed ("ls" +:+ String (ascii_of_nat 13) EmptyString +:+ nl))
  = run_command logging_externals (mk_cmd (Some "gfls") "ls" do_ls) 1
      ["ls" +:+ String (ascii_of_nat 13) EmptyString].
Proof.
  apply (trailing_blanks_stay_in_argv logging_externals "ls"
           (String (ascii_of_nat 13) EmptyString)); reflexivity.
Defined.

(** ** The help list and the table *)

(** X17: the list that [help] prints and the command table agree except
    for [mv]: every name of the table other than [mv] is an item of the
    list, no alias is, and every item of the list is the name of an
    entry. *)
Theorem help_list_matches_table (c : cmd) (Hc : In c cmds) :
  help_lists (name c) = negb (String.eqb (name c) "mv")
  /\ (forall a, alias c = Some a -> help_lists a = false)
  /\ (forall item,
        In item (lines_from (chars shell_usage_text) []) ->
        String.prefix "* " item = true ->
        exists c', In c' cmds /\ item = "* " +:+ name c').
Proof.
  split; [|split].
  - simpl in Hc.
    repeat (destruct Hc as [<-|Hc]; [vm_compute; reflexivity|]). contradiction.
  - intros a Ha. simpl in Hc.
    repeat (destruct Hc as [<-|Hc];
            [simpl in Ha;
             first [discriminate | injection Ha as <-; vm_compute; reflexivity]|]).
    contradiction.
  - intros item Hi Hp.
    assert (Hl : lines_from (chars shell_usage_text) []
                 = ["The following commands are supported:";
                    "* cat"; "* connect"; "* cp"; "* disconnect"; "* help";
                    "* ls"; "* mkdir"; "* quit"; "* rm"; "* stat"; "* tail"])
      by (vm_compute; reflexivity).
    rewrite Hl in Hi. clear Hl. simpl in Hi.
    destruct Hi as [<-|Hi]; [discriminate Hp|].
    repeat (destruct Hi as [<-|Hi];
            [eexists (mk_cmd _ _ _); split; cycle 1;
             [reflexivity
             | simpl; repeat (first [left; reflexivity | right])]|]).
    contradiction.
Qed.

Lemma help_list_matches_table_witness :
  help_lists "stat" = true /\ help_lists "gfstat" = false.
Proof.
  assert (Hin : In (mk_cmd (Some "gfstat") "stat" do_stat) cmds)
    by (simpl; do 10 right; left; reflexivity).
  destruct (help_list_matches_table _ Hin) as (Hn & Ha & _).
  split; [exact Hn | apply Ha; reflexivity].
Defined.

(** X18: [--debug] sets the debug flag and leaves [option_index] at 0, the
    index of [debug] in the table of long options; followed only by
    arguments that are no options it therefore always leads to the
    connection attempt, also when no URL is given. *)
Theorem debug_option_connects (ext : externals) (st : state) (a0 : string)
    (pos : list string) :
  options_live st ->
  argv (ctx_mem st) = Argv (a0 :: "--debug" :: pos) ->
  argc (ctx_mem st) = Z.of_nat (length (a0 :: "--debug" :: pos)) ->
  forallb is_nonoption pos = true ->
  parse_options ext st
  = connect_at_startup ext
      (mk_state (heap st) (brk st) (ctx st) (ctx_mem st)
         (mk_options true (xlator_options (options_mem st)))
         (program_invocation_name st) (output st)).
Proof.
  intros Hl Hav Hac Hpos. unfold parse_options. unfold bind at 1.
  rewrite (get_ctx_live st (proj1 Hl)), Hav. cbn [tail hd length].
  unfold bind at 1. cbn [parse_options_loop exchange].
  change (getopt_long ("--debug" :: pos))
    with (mk_call [] (GetoptOption "d" None (Some 0%nat)) ["--debug"] pos).
  unfold bind at 1. cbn [ret go_result go_passed go_used go_left app].
  cbv iota beta. change (Ascii.eqb "d" "d") with true. cbv iota.
  unfold bind at 1. rewrite (set_options_live _ st Hl).
  cbn [exchange]. rewrite (getopt_long_nonoptions pos Hpos).
  cbn [go_result go_passed go_used go_left app exchange bind ret].
  rewrite Hac.
  assert (Hge : (Z.of_nat (length (a0 :: "--debug" :: pos)) - Z.of_nat 0
                 >=? 2) = true).
  { apply Z.geb_le. cbn [length]. lia. }
  rewrite Hge. reflexivity.
Qed.

Lemma debug_option_connects_witness :
  exists st',
    parse_options logging_externals (startup_state ["gfcli"; "--debug"])
    = Ok tt st'
    /\ debug (options_mem st') = true
    /\ output st' = [Stdout "cli_connect"; Stdout "apply_xlator_options"].
Proof.
  eexists. split.
  - rewrite (debug_option_connects logging_externals
               (startup_state ["gfcli"; "--debug"]) "gfcli" []).
    + vm_compute. reflexivity.
    + split; [exists 1%positive; split; reflexivity|].
      exists 2%positive. split; reflexivity.
    + reflexivity.
    + reflexivity.
    + reflexivity.
  - split; reflexivity.
Defined.

(** ** Leading spaces *)

Lemma spaces_chars (k : nat) : chars (spaces k) = repeat SPACE k.
Proof. apply chars_string. Qed.

Lemma count_spaces_repeat (k : nat) : count_spaces (repeat SPACE k) = Z.of_nat k.
Proof.
  induction k as [|k IH]; [reflexivity|].
  change (count_spaces (repeat SPACE (S k)))
    with (1 + count_spaces (repeat SPACE k)).
  rewrite IH. lia.
Qed.

Lemma space_fields_repeat (k : nat) (l : list ascii) :
  space_fields (repeat SPACE k ++ l) = repeat [] k ++ space_fields l.
Proof.
  induction k as [|k IH]; [reflexivity|].
  change (space_fields (repeat SPACE (S k) ++ l))
    with ([] :: space_fields (repeat SPACE k ++ l)).
  rewrite IH. reflexivity.
Qed.

Lemma strtok_r_spaces (k : nat) (line : string) :
  strtok_r (spaces k +:+ line) " " = strtok_r line " ".
Proof.
  unfold strtok_r. rewrite chars_append, spaces_chars.
  induction k as [|k IH]; [reflexivity|].
  change (skip_delims " " (repeat SPACE (S k) ++ chars line))
    with (skip_delims " " (repeat SPACE k ++ chars line)).
  exact IH.
Qed.

(** A string that the lookup finds is a command word. *)
Lemma get_cmd_word (w : string) (c : cmd) :
  get_cmd w = Some c -> is_word w = true /\ strlen w + 1 < SIZE_MAX.
Proof.
  rewrite get_cmd_first_match. intros H. apply find_some in H as [Hin Hm].
  apply cmd_matches_iff in Hm. simpl in Hin.
  repeat (destruct Hin as [<-|Hin];
          [destruct Hm as [->|Hm];
           [split; reflexivity
           |simpl in Hm; first [discriminate Hm
                               |injection Hm as <-; split; reflexivity]]|]).
  contradiction.
Qed.

(** A line that starts with spaces before the word of a registered
    command runs that command, with one empty argument for each of the
    spaces. *)
Lemma leading_spaces_run (ext : externals) (k : nat) (w body : string)
    (c : cmd) :
  get_cmd w = Some c ->
  no_newline (chars body) = true ->
  body = w \/ (exists args, body = w +:+ String SPACE args) ->
  count_spaces (chars body) + 1 + Z.of_nat (S k) <= INT_MAX ->
  shell_line ext (typed (spaces (S k) +:+ body +:+ nl))
  = run_command ext c (count_spaces (chars body) + 1 + Z.of_nat (S k))
      (repeat EmptyString (S k)
       ++ map string_of_list_ascii (space_fields (chars body))).
Proof.
  intros Hc Hnl Hbody Hb.
  destruct (get_cmd_word w c Hc) as [Hw Hlen].
  destruct (word_is_looked_up w Hw Hlen)
    as (Htok & Htoknl & (b1 & Ht1 & Hs1) & (b2 & Ht2 & Hs2) & _).
  pose proof (count_spaces_nonneg (chars body)) as Hnn.
  assert (Hsplit : split_str (spaces (S k) +:+ body +:+ nl) true
                   = Some (count_spaces (chars body) + 1 + Z.of_nat (S k),
                           Argv (repeat EmptyString (S k)
                                 ++ map string_of_list_ascii
                                      (space_fields (chars body))))).
  { rewrite <- string_app_assoc.
    assert (Hcount : count_spaces (chars (spaces (S k) +:+ body))
                     = Z.of_nat (S k) + count_spaces (chars body)).
    { rewrite chars_append, spaces_chars, count_spaces_app,
        count_spaces_repeat. reflexivity. }
    rewrite split_str_fields.
    - rewrite Hcount, chars_append, spaces_chars, space_fields_repeat.
      rewrite map_app, map_repeat.
      replace (Z.of_nat (S k) + count_spaces (chars body) + 1)
        with (count_spaces (chars body) + 1 + Z.of_nat (S k)) by lia.
      reflexivity.
    - rewrite chars_append, spaces_chars. unfold no_newline in *.
      rewrite forallb_app, Hnl, andb_true_r.
      clear. induction (S k) as [|n IH]; [reflexivity | exact IH].
    - rewrite Hcount. lia. }
  assert (Hlook : exists token buf,
             strtok_r (body +:+ nl) " " = Some token
             /\ trim token = Trimmed buf /\ cstring buf = w).
  { destruct Hbody as [->|[args ->]].
    - exists (w +:+ nl), b2. repeat split; assumption.
    - exists w, b1. rewrite string_app_assoc. repeat split;
        [apply (Htok (args +:+ nl)) | assumption | assumption]. }
  destruct Hlook as (token & buf & Htk & Htr & Hcs).
  unfold shell_line. cbn [typed text strdup_ok malloc_ok negb].
  change (starts_with_newline (spaces (S k) +:+ body +:+ nl)) with false.
  rewrite strtok_r_spaces, Htk, Htr, Hcs, Hc.
  apply dispatch_split; [exact Hsplit | lia].
Qed.

(** C7, as the code has it: for a line with [N] spaces, [N] less than
    [INT_MAX], [split_str] counts [N + 1] arguments (with [INT_MAX] spaces
    or more the [int] count overflows); on a line that ends in its newline
    it fills all of them with the fields between the spaces, so that
    adjacent spaces and a leading space give empty strings.  The command
    lookup does not use these tokens: it takes the first [strtok_r] token
    of a copy of the line, which skips leading spaces, so every line that
    has spaces before the word of a registered command runs that command,
    with an empty [argv[0]], and is not reported as unknown. *)
Theorem split_str_counts_spaces (line : string) :
  (forall ok, count_spaces (chars line) + 1 <= INT_MAX ->
      exists av,
        split_str line ok = Some (count_spaces (chars line) + 1, av))
  /\ (forall ok, INT_MAX < count_spaces (chars line) + 1 ->
        split_str line ok = None)
  /\ (no_newline (chars line) = true ->
      count_spaces (chars line) + 1 <= INT_MAX ->
      split_str (line +:+ nl) true
      = Some (count_spaces (chars line) + 1,
              Argv (map string_of_list_ascii (space_fields (chars line))))
      /\ Z.of_nat (length (space_fields (chars line)))
         = count_spaces (chars line) + 1)
  /\ (count_spaces (chars line) + 2 <= INT_MAX ->
      exists n toks,
        split_str (String SPACE line) true
        = Some (n, Argv (EmptyString :: toks)))
  /\ (forall k, strtok_r (spaces k +:+ line) " " = strtok_r line " ")
  /\ (forall ext k w c,
        get_cmd w = Some c ->
        no_newline (chars line) = true ->
        line = w \/ (exists args, line = w +:+ String SPACE args) ->
        count_spaces (chars line) + 1 + Z.of_nat (S k) <= INT_MAX ->
        shell_line ext (typed (spaces (S k) +:+ line +:+ nl))
        = run_command ext c (count_spaces (chars line) + 1 + Z.of_nat (S k))
            (repeat EmptyString (S k)
             ++ map string_of_list_ascii (space_fields (chars line)))).
Proof.
  split; [intros ok Hb; apply split_str_argc; exact Hb|].
  split; [intros ok Hb; apply (split_str_overflow line ok Hb)|].
  split; [intros Hnl Hb; split; [apply split_str_fields; assumption
                                | apply space_fields_length]|].
  split; [apply split_str_leading_space|].
  split; [intros k; apply strtok_r_spaces|].
  intros ext k w c. apply leading_spaces_run.
Qed.

Lemma split_str_counts_spaces_witness :
  no_newline (chars "ls  -a") = true
  /\ count_spaces (chars "ls  -a") + 1 <= INT_MAX
  /\ split_str ("ls  -a" +:+ nl) true = Some (3, Argv ["ls"; ""; "-a"])
  /\ shell_line logging_externals (typed ("  ls  -a" +:+ nl))
     = run_command logging_externals (mk_cmd (Some "gfls") "ls" do_ls) 5
         [""; ""; "ls"; ""; "-a"].
Proof.
  split; [reflexivity|]. split; [vm_compute; discriminate|].
  destruct (split_str_counts_spaces "ls  -a") as (_ & _ & H & _ & _ & Hrun).
  destruct (H eq_refl ltac:(vm_compute; discriminate)) as [Hs _].
  split; [exact Hs|].
  apply (Hrun logging_externals 1%nat "ls" (mk_cmd (Some "gfls") "ls" do_ls));
    [reflexivity | reflexivity | right; exists " -a"; reflexivity
    | vm_compute; discriminate].
Defined.

(** C7 as stated fails: the first token of the line [ ls] is empty, yet
    the line is not reported as unknown; the [ls] handler runs and nothing
    goes to stderr. *)
Lemma leading_space_line_is_dispatched :
  split_str (" ls" +:+ nl) true = Some (2, Argv [""; "ls"])
  /\ exists st',
       shell_line logging_externals (typed (" ls" +:+ nl)) ready_state
       = Ok None st'
       /\ output st' = [Stdout "do_ls"].
Proof.
  split; [reflexivity|]. eexists. split; [vm_compute; reflexivity | reflexivity].
Qed.
